(** * Broker and runner of the bisection service: a shallow embedding

    The development follows the two TypeScript classes of the repository:

    - [Server] (the broker's HTTP surface): the routes of the
      constructor, [getTaskBody], [getJob], [getLog], [patchJob],
      [putLog], [getJobs] and the static query filter [filter];
    - [Runner] (the worker): [fetchAvailableJobs], [fetchJobAndEtag],
      [patchJob], [putLog], [patchResult], the exit and error handlers of
      [runBisect], and the timer-driven [start] / [pollSafely] / [poll]
      loop.

    JavaScript values are modelled by the inductive type [jsval]; an object
    is an association list in property insertion order, an array is a list,
    a function is known by its name.  Numbers are the integers (no
    fractional or non-finite number occurs in the statements below).  A
    property read sees the own properties of a value first and then what
    the value inherits from its prototype chain, which the host supplies
    ([inherited]); no name of the job's data model is inherited.

    Code that the classes call but that is not part of the two source files
    is taken as an interface: the [Task] class ([canSet], [publicSubset]),
    the task log, the output parser, and the host functions
    [JSON.stringify], [etag], the conversions between numbers and strings,
    the built-in prototypes and the URL constructor. *)

From Stdlib Require Import String Ascii List ZArith Bool Lia Arith Permutation.
Import ListNotations.

Local Open Scope string_scope.
Local Open Scope list_scope.


(* ------------------------------------------------------------------ *)
(** ** JavaScript values *)

Module JS.

#[warnings="-register-all"]
Inductive jsval : Type :=
| JUndefined
| JNull
| JBool (b : bool)
| JNum (n : Z)
| JStr (s : string)
| JArr (items : list jsval)
| JObj (props : list (string * jsval))
| JFun (name : string).   (* a function of the runtime, told by its name *)

(** [Boolean(v)]. *)
Definition truthy (v : jsval) : bool :=
  match v with
  | JUndefined | JNull => false
  | JBool b => b
  | JNum n => negb (n =? 0)%Z
  | JStr s => negb (s =? "")
  | JArr _ | JObj _ | JFun _ => true
  end.

(** [typeof v === 'object' && v !== null]. *)
Definition is_object (v : jsval) : bool :=
  match v with
  | JArr _ | JObj _ => true
  | _ => false
  end.

(** *** Strings *)

(** [s.split(sep)] for a one-character separator: never empty, the empty
    string splits into one empty piece. *)
Fixpoint split (sep : ascii) (s : string) : list string :=
  match s with
  | EmptyString => [EmptyString]
  | String c rest =>
      if Ascii.eqb c sep then EmptyString :: split sep rest
      else match split sep rest with
           | [] => [String c EmptyString]
           | piece :: pieces => String c piece :: pieces
           end
  end.

(** [pieces.join(sep)]. *)
Fixpoint join (sep : string) (pieces : list string) : string :=
  match pieces with
  | [] => ""
  | [p] => p
  | p :: rest => p ++ sep ++ join sep rest
  end.

Fixpoint last_char (s : string) : option ascii :=
  match s with
  | EmptyString => None
  | String c EmptyString => Some c
  | String _ rest => last_char rest
  end.

(** [s.slice(0, -1)]. *)
Fixpoint drop_last (s : string) : string :=
  match s with
  | EmptyString => EmptyString
  | String _ EmptyString => EmptyString
  | String c rest => String c (drop_last rest)
  end.

Fixpoint contains_char (c : ascii) (s : string) : bool :=
  match s with
  | EmptyString => false
  | String d rest => Ascii.eqb d c || contains_char c rest
  end.

Definition is_digit (c : ascii) : bool :=
  let n := nat_of_ascii c in ((48 <=? n) && (n <=? 57))%nat.

Fixpoint all_digits (s : string) : bool :=
  match s with
  | EmptyString => true
  | String c rest => is_digit c && all_digits rest
  end.

Fixpoint digits_value (acc : Z) (s : string) : Z :=
  match s with
  | EmptyString => acc
  | String c rest =>
      digits_value (10 * acc + (Z.of_nat (nat_of_ascii c) - 48)) rest
  end.

(** An array index written canonically: ["0"], or digits without a leading
    zero. *)
Definition canonical_index (k : string) : option nat :=
  match k with
  | EmptyString => None
  | String c rest =>
      if all_digits k && (negb (Ascii.eqb c "0") || (rest =? ""))
      then Some (Z.to_nat (digits_value 0 k))
      else None
  end.

Definition lower_char (c : ascii) : ascii :=
  let n := nat_of_ascii c in
  if ((65 <=? n) && (n <=? 90))%nat then ascii_of_nat (n + 32) else c.

(** [s.toLowerCase()] on ASCII letters. *)
Fixpoint toLowerCase (s : string) : string :=
  match s with
  | EmptyString => EmptyString
  | String c rest => String (lower_char c) (toLowerCase rest)
  end.

(** *** Objects and arrays *)

Definition props := list (string * jsval).

Fixpoint own (o : props) (k : string) : option jsval :=
  match o with
  | [] => None
  | (k', v) :: rest => if k' =? k then Some v else own rest k
  end.

(** [o[k]]: [undefined] when [k] is not an own property. *)
Definition obj_get (o : props) (k : string) : jsval :=
  match own o k with Some v => v | None => JUndefined end.

(** [o[k] = v]: an existing property keeps its place, a new one goes last. *)
Fixpoint obj_set (o : props) (k : string) (v : jsval) : props :=
  match o with
  | [] => [(k, v)]
  | (k', v') :: rest =>
      if k' =? k then (k', v) :: rest else (k', v') :: obj_set rest k v
  end.

(** [delete o[k]]. *)
Fixpoint obj_delete (o : props) (k : string) : props :=
  match o with
  | [] => []
  | (k', v') :: rest =>
      if k' =? k then rest else (k', v') :: obj_delete rest k
  end.

(** [Object.assign(target, source)]. *)
Definition obj_assign (target source : props) : props :=
  fold_left (fun t kv => obj_set t (fst kv) (snd kv)) source target.

Definition arr_get (l : list jsval) (i : Z) : jsval :=
  if (i <? 0)%Z then JUndefined else nth (Z.to_nat i) l JUndefined.

(** The start position [arr.splice(i, ...)] uses. *)
Definition splice_start (l : list jsval) (i : Z) : nat :=
  let len := Z.of_nat (length l) in
  if (i <? 0)%Z then Z.to_nat (Z.max (len + i) 0)
  else Z.to_nat (Z.min i len).

(** [arr.splice(i, 0, v)]. *)
Definition arr_insert (l : list jsval) (i : Z) (v : jsval) : list jsval :=
  let n := splice_start l i in firstn n l ++ v :: skipn n l.

(** [arr.splice(i, 1)]: the array left, and the element taken out. *)
Definition arr_remove (l : list jsval) (i : Z) : list jsval * jsval :=
  let n := splice_start l i in
  (firstn n l ++ skipn (S n) l, nth n l JUndefined).

(** [arr[i] = v]: past the end the array grows, the gap reading
    [undefined]; a negative [i] names no element. *)
Definition arr_set (l : list jsval) (i : Z) (v : jsval) : list jsval :=
  if (i <? 0)%Z then l
  else
    let n := Z.to_nat i in
    if (n <? length l)%nat then firstn n l ++ v :: skipn (S n) l
    else l ++ repeat JUndefined (n - length l) ++ [v].

(** [s[i]] for a string: the one-character string at [i]. *)
Definition str_at (s : string) (i : nat) : jsval :=
  match String.get i s with
  | Some c => JStr (String c EmptyString)
  | None => JUndefined
  end.

(** The member names of the data model: those of a job, of its claim,
    of a result, and the [etag] the server keeps on a task. *)
Definition data_names : list string :=
  ["id"; "type"; "bisect_range"; "gist"; "platform"; "current"; "last";
   "history"; "bot_client_data"; "runner"; "status"; "time_begun";
   "time_ended"; "error"; "etag"].

End JS.
Export JS.

(** The runtime the code relies on. *)
Class Host := {
  (** [JSON.stringify] *)
  JSON_stringify : jsval -> string;
  (** the [etag] package: a tag computed from the body text *)
  create_etag : string -> string;
  (** [Number(s)] for a string, [None] when the result is no integer *)
  StringToNumber : string -> option Z;
  (** [String(v)] for an array, an object or a function *)
  ObjectToString : jsval -> string;
  (** [String(n)] for a number *)
  NumberToString : Z -> string;
  (** what the prototypes of a value give for a name that is no own
      property of it: [undefined] when none has the name, a [JFun] for a
      method such as [toString] *)
  inherited : jsval -> string -> jsval;
  (** [new URL(input, base)], for a [base] the constructor accepts: the
      path and query of the URL, which the server reads as [req.url] *)
  URL_target : string -> string -> string;
  (** no prototype has a member named as a member of the data model *)
  inherited_data :
    forall v k, existsb (String.eqb k) data_names = true ->
                inherited v k = JUndefined
}.

Section Reads.
Context {H : Host}.

(** [v?.[k]]: [undefined] on [undefined] and [null]; otherwise the own
    property ([length] and the elements, for arrays and strings), and
    without one what the prototypes give. *)
Definition opt_get (v : jsval) (k : string) : jsval :=
  match v with
  | JUndefined | JNull => JUndefined
  | JBool _ | JNum _ | JFun _ => inherited v k
  | JObj o =>
      match own o k with
      | Some x => x
      | None => inherited v k
      end
  | JArr l =>
      if k =? "length" then JNum (Z.of_nat (length l))
      else match canonical_index k with
           | Some i =>
               if (i <? length l)%nat then nth i l JUndefined
               else inherited v k
           | None => inherited v k
           end
  | JStr s =>
      if k =? "length" then JNum (Z.of_nat (String.length s))
      else match canonical_index k with
           | Some i =>
               if (i <? String.length s)%nat then str_at s i
               else inherited v k
           | None => inherited v k
           end
  end.

(** [String(v)], which a template literal applies. *)
Definition ToString (v : jsval) : string :=
  match v with
  | JUndefined => "undefined"
  | JNull => "null"
  | JBool true => "true"
  | JBool false => "false"
  | JNum n => NumberToString n
  | JStr s => s
  | JArr _ | JObj _ | JFun _ => ObjectToString v
  end.

End Reads.

(* ------------------------------------------------------------------ *)
(** ** The JSON-patch library, as [Server.patchJob] uses it

    The library (fast-json-patch) is a dependency of the broker.
    [applyPatch(document, patch, validateOperation)] applies the operations
    one after the other to the document itself (no copy is made), calling
    the validator on each operation before that operation is applied.  An
    exception leaves the document as the operations applied so far made
    it. *)

Module JsonPatch.

Record Operation := {
  op : string;
  path : string;
  from : string;        (* read by [move] and [copy] only *)
  value : jsval         (* [undefined] when the member is absent *)
}.

Inductive res (A : Type) : Type :=
| Ok (a : A)
| Throw (e : string).
Arguments Ok {A} a.
Arguments Throw {A} e.

Definition bind {A B} (r : res A) (k : A -> res B) : res B :=
  match r with
  | Ok a => k a
  | Throw e => Throw e
  end.

Notation "x <- r ;; k" := (bind r (fun x => k))
  (at level 61, r at next level, right associativity).

(** [str.replace(/ab/g, r)] for a two-character pattern. *)
Fixpoint replace_pair (a b r : ascii) (s : string) : string :=
  match s with
  | String c ((String d rest) as tail) =>
      if Ascii.eqb c a && Ascii.eqb d b then String r (replace_pair a b r rest)
      else String c (replace_pair a b r tail)
  | _ => s
  end.

Definition unescapePathComponent (p : string) : string :=
  replace_pair "~" "0" "~" (replace_pair "~" "1" "/" p).

(** [Number(key)] for a string of digits: the double nearest to the
    value, ties to the even mantissa; [None] is [Infinity]. *)
Definition nearest_double (n : Z) : option Z :=
  if (n <? 2 ^ 53)%Z then Some n
  else
    let e := (Z.log2 n - 52)%Z in
    let q := Z.shiftr n e in
    let r := (n - Z.shiftl q e)%Z in
    let half := (2 ^ (e - 1))%Z in
    let q := if (half <? r)%Z || ((r =? half)%Z && Z.odd q)
             then (q + 1)%Z else q in
    let m := Z.shiftl q e in
    if (2 ^ 1024 <=? m)%Z then None else Some m.

(** [~~key] for a string of digits: the number wrapped to 32 bits,
    [Infinity] giving 0. *)
Definition toInt32 (key : string) : Z :=
  match nearest_double (digits_value 0 key) with
  | Some m => ((m + 2 ^ 31) mod 2 ^ 32 - 2 ^ 31)%Z
  | None => 0%Z
  end.

Definition banned (prev key : string) : bool :=
  (key =? "__proto__") || ((key =? "prototype") && (prev =? "constructor")).

Section WithHost.
Context {H : Host}.

(** A key as an array sees it. *)
Inductive akey := AIdx (i : Z) | AProp (s : string).

Definition array_key (validate : bool) (l : list jsval) (key : string)
  : res akey :=
  if key =? "-" then Ok (AIdx (Z.of_nat (length l)))
  else if all_digits key then Ok (AIdx (toInt32 key))
  else if validate then Throw "OPERATION_PATH_ILLEGAL_ARRAY_INDEX"
  else Ok (AProp key).

(** [arr[key]]: the element, or what the prototypes give. *)
Definition read_arr (l : list jsval) (k : akey) : jsval :=
  match k with
  | AIdx i =>
      if (0 <=? i)%Z && (i <? Z.of_nat (length l))%Z
      then nth (Z.to_nat i) l JUndefined
      else inherited (JArr l) (NumberToString i)
  | AProp s => opt_get (JArr l) s
  end.

(** [_areEquals]: deep equality, objects compared as sets of members. *)
Fixpoint areEquals (a b : jsval) {struct a} : bool :=
  match a, b with
  | JUndefined, JUndefined => true
  | JNull, JNull => true
  | JBool x, JBool y => Bool.eqb x y
  | JNum x, JNum y => (x =? y)%Z
  | JStr x, JStr y => (x =? y)
  | JArr la, JArr lb =>
      (length la =? length lb)%nat &&
      (fix items (la lb : list jsval) : bool :=
         match la, lb with
         | x :: xs, y :: ys => areEquals x y && items xs ys
         | _, _ => true
         end) la lb
  | JObj oa, JObj ob =>
      (length oa =? length ob)%nat &&
      (fix members (oa : list (string * jsval)) : bool :=
         match oa with
         | [] => true
         | (k, v) :: rest =>
             match own ob k with
             | Some w => areEquals v w && members rest
             | None => false
             end
         end) oa
  | JFun f, JFun g => (f =? g)
  | _, _ => false
  end.

(** [JSON.parse(JSON.stringify(v))]: a member that is [undefined] or a
    function is left out, an element that is one becomes [null]. *)
Fixpoint cloneJSON (v : jsval) : jsval :=
  match v with
  | JArr l =>
      JArr (map (fun x => match x with
                          | JUndefined | JFun _ => JNull
                          | _ => cloneJSON x
                          end) l)
  | JObj o =>
      JObj ((fix members (o : list (string * jsval)) :=
               match o with
               | [] => []
               | (k, JUndefined) :: rest => members rest
               | (k, JFun _) :: rest => members rest
               | (k, x) :: rest => (k, cloneJSON x) :: members rest
               end) o)
  | JFun _ => JUndefined
  | _ => v
  end.

(** [_deepClone]: through JSON for an object, [null] for [undefined],
    any other value as it is. *)
Definition deepClone (v : jsval) : jsval :=
  match v with
  | JUndefined => JNull
  | JFun f => JFun f
  | _ => cloneJSON v
  end.

(** What an operation does to the container holding its target. *)
Inductive action :=
| ActAdd (v : jsval)
| ActRemove
| ActReplace (v : jsval)
| ActTest (v : jsval)
| ActNone          (* [_get], and the outer pass of [move] and [copy] *)
| ActUnknown.      (* no such member in [objOps] / [arrOps] *)

Definition obj_final (a : action) (o : props) (key : string) : res jsval :=
  match a with
  | ActAdd v | ActReplace v => Ok (JObj (obj_set o key v))
  | ActRemove => Ok (JObj (obj_delete o key))
  | ActTest v =>
      if areEquals (opt_get (JObj o) key) v then Ok (JObj o)
      else Throw "TEST_OPERATION_FAILED"
  | ActNone => Ok (JObj o)
  | ActUnknown => Throw "TypeError"
  end.

Definition arr_final (validate : bool) (a : action) (l : list jsval)
    (k : akey) : res jsval :=
  match a with
  | ActAdd v =>
      match k with
      | AIdx i =>
          if validate && (Z.of_nat (length l) <? i)%Z
          then Throw "OPERATION_VALUE_OUT_OF_BOUNDS"
          else Ok (JArr (arr_insert l i v))
      | AProp _ => Ok (JArr l)
      end
  | ActRemove =>
      match k with
      | AIdx i => Ok (JArr (fst (arr_remove l i)))
      | AProp _ => Ok (JArr (fst (arr_remove l 0)))
      end
  | ActReplace v =>
      match k with
      | AIdx i => Ok (JArr (arr_set l i v))
      | AProp _ => Ok (JArr l)
      end
  | ActTest v =>
      if areEquals (read_arr l k) v then Ok (JArr l)
      else Throw "TEST_OPERATION_FAILED"
  | ActNone => Ok (JArr l)
  | ActUnknown => Throw "TypeError"
  end.

(** A string, number or boolean as the container: reading is fine,
    writing a property of a primitive is a [TypeError].  A function as
    the container takes the property; it is no part of the document. *)
Definition prim_final (a : action) (p : jsval) (key : string) : res jsval :=
  match a with
  | ActAdd _ | ActReplace _ =>
      match p with
      | JFun _ => Ok p
      | _ => Throw "TypeError"
      end
  | ActUnknown => Throw "TypeError"
  | ActRemove | ActNone => Ok p
  | ActTest v =>
      if areEquals (opt_get p key) v then Ok p
      else Throw "TEST_OPERATION_FAILED"
  end.

(** The loop of [applyOperation] for a path with keys: walk to the
    container of the last key, act there.  The document comes back as the
    in-place update left it. *)
Fixpoint walk (validate : bool) (a : action) (prev : string)
    (keys : list string) (obj : jsval) {struct keys} : res jsval :=
  match keys with
  | [] => Ok obj
  | raw :: rest =>
      let key := unescapePathComponent raw in
      if banned prev key then Throw "TypeError: banned" else
      match obj with
      | JUndefined | JNull => Throw "TypeError"
      | JArr l =>
          k <- array_key validate l key ;;
          match rest with
          | [] => arr_final validate a l k
          | _ =>
              let child := read_arr l k in
              if validate && negb (is_object child)
              then Throw "OPERATION_PATH_UNRESOLVABLE"
              else
                child' <- walk validate a raw rest child ;;
                Ok (match k with
                    | AIdx i =>
                        if (0 <=? i)%Z && (i <? Z.of_nat (length l))%Z
                           && is_object child
                        then JArr (arr_set l i child')
                        else obj
                    | AProp _ => obj
                    end)
          end
      | JObj o =>
          match rest with
          | [] => obj_final a o key
          | _ =>
              let child := opt_get obj key in
              if validate && negb (is_object child)
              then Throw "OPERATION_PATH_UNRESOLVABLE"
              else
                child' <- walk validate a raw rest child ;;
                Ok (match own o key with
                    | Some _ =>
                        if is_object child then JObj (obj_set o key child')
                        else obj
                    | None => obj   (* a value of a prototype *)
                    end)
          end
      | _ =>
          match rest with
          | [] => prim_final a obj key
          | _ =>
              _ <- walk validate a raw rest (opt_get obj key) ;;
              Ok obj
          end
      end
  end.

(** The walk from the document along a pointer, whose keys are the pieces
    after the first [/].  A pointer without [/] has none: the library then
    reads [keys[1]], which is [undefined]. *)
Definition walk_pointer (validate : bool) (a : action) (ptr : string)
    (doc : jsval) : res jsval :=
  match split "/" ptr with
  | first :: k :: ks => walk validate a first (k :: ks) doc
  | _ =>
      match doc with
      | JArr _ => Throw "TypeError"
      | _ => walk validate a "" ["undefined"] doc
      end
  end.

(** Where a value sits inside a document. *)
Inductive rkey := RProp (s : string) | RIdx (i : nat).

Fixpoint sub (doc : jsval) (p : list rkey) : jsval :=
  match p with
  | [] => doc
  | RProp s :: rest =>
      match doc with
      | JObj o => sub (obj_get o s) rest
      | _ => JUndefined
      end
  | RIdx i :: rest =>
      match doc with
      | JArr l => sub (nth i l JUndefined) rest
      | _ => JUndefined
      end
  end.

(** The in-place update of the object at [p], which is there. *)
Fixpoint put (doc : jsval) (p : list rkey) (v : jsval) : jsval :=
  match p with
  | [] => v
  | RProp s :: rest =>
      match doc with
      | JObj o =>
          match own o s with
          | Some child => JObj (obj_set o s (put child rest v))
          | None => doc
          end
      | _ => doc
      end
  | RIdx i :: rest =>
      match doc with
      | JArr l =>
          if (i <? length l)%nat
          then JArr (arr_set l (Z.of_nat i) (put (nth i l JUndefined) rest v))
          else doc
      | _ => doc
      end
  end.

(** The read walk of [getValueByPointer]: the value, and where it sits
    when it is a part of the document ([None] for a value of a
    prototype). *)
Fixpoint locate (prev : string) (keys : list string) (obj : jsval)
    {struct keys} : res (option (list rkey) * jsval) :=
  match keys with
  | [] => Ok (Some [], obj)
  | raw :: rest =>
      let key := unescapePathComponent raw in
      if banned prev key then Throw "TypeError: banned" else
      step <-
        match obj with
        | JUndefined | JNull => Throw "TypeError"
        | JObj o =>
            Ok (match own o key with
                | Some x => (Some (RProp key), x)
                | None => (None, inherited obj key)
                end)
        | JArr l =>
            k <- array_key false l key ;;
            Ok (match k with
                | AIdx i =>
                    if (0 <=? i)%Z && (i <? Z.of_nat (length l))%Z
                    then (Some (RIdx (Z.to_nat i)), nth (Z.to_nat i) l JUndefined)
                    else (None, read_arr l k)
                | AProp s => (None, opt_get obj s)
                end)
        | _ => Ok (None, opt_get obj key)
        end ;;
      match rest with
      | [] => Ok (option_map (fun k => [k]) (fst step), snd step)
      | _ =>
          found <- locate raw rest (snd step) ;;
          Ok (match fst step, fst found with
              | Some k, Some p => Some (k :: p)
              | _, _ => None
              end, snd found)
      end
  end.

Definition locate_pointer (ptr : string) (doc : jsval)
  : res (option (list rkey) * jsval) :=
  if ptr =? "" then Ok (Some [], doc)
  else
    match split "/" ptr with
    | first :: k :: ks => locate first (k :: ks) doc
    | _ =>
        match doc with
        | JArr _ => Throw "TypeError"
        | _ => locate "" ["undefined"] doc
        end
    end.

Definition getValueByPointer (doc : jsval) (ptr : string) : res jsval :=
  found <- locate_pointer ptr doc ;; Ok (snd found).

(** The value a [remove] hands back, where the walk of the [remove]
    goes through: the member it deletes, or the element [splice] takes
    out. *)
Fixpoint taken (keys : list string) (obj : jsval) {struct keys} : jsval :=
  match keys with
  | [] => obj
  | raw :: rest =>
      let key := unescapePathComponent raw in
      match rest with
      | [] =>
          match obj with
          | JArr l =>
              match array_key false l key with
              | Ok (AIdx i) => snd (arr_remove l i)
              | _ => snd (arr_remove l 0)
              end
          | _ => opt_get obj key
          end
      | _ =>
          taken rest
            (match obj with
             | JArr l =>
                 match array_key false l key with
                 | Ok k => read_arr l k
                 | Throw _ => JUndefined
                 end
             | _ => opt_get obj key
             end)
      end
  end.

Definition taken_pointer (ptr : string) (doc : jsval) : jsval :=
  match split "/" ptr with
  | _ :: k :: ks => taken (k :: ks) doc
  | _ => taken ["undefined"] doc
  end.

(** What [applyPatch]'s local variable [document] names after an
    operation. *)
Inductive newdoc :=
| Fresh (v : jsval)            (* a value of its own *)
| Inside (p : list rkey).      (* an object inside the former document *)

Inductive outcome :=
| Done (doc : jsval)           (* applied; the document is now [doc] *)
| Rebound (d : newdoc)         (* a root operation: the variable is rebound,
                                  the former document is as it was *)
| Thrown (e : string) (doc : jsval).

Definition finish (doc : jsval) (r : res jsval) : outcome :=
  match r with
  | Ok doc' => Done doc'
  | Throw e => Thrown e doc
  end.

Definition action_of (o : Operation) : action :=
  if op o =? "add" then ActAdd (value o)
  else if op o =? "remove" then ActRemove
  else if op o =? "replace" then ActReplace (value o)
  else if op o =? "test" then ActTest (value o)
  else if (op o =? "move") || (op o =? "copy") || (op o =? "_get") then ActNone
  else ActUnknown.

Definition rebind_to (doc : jsval) (ptr : string) : outcome :=
  match locate_pointer ptr doc with
  | Throw e => Thrown e doc
  | Ok (Some p, v) => Rebound (if is_object v then Inside p else Fresh v)
  | Ok (None, v) => Rebound (Fresh v)
  end.

(** [objOps.move]: read the target, take the value out at [from], add it
    at [path]; the two inner operations run without validation.

    With [from] empty the inner [remove] is a root operation, which
    removes nothing and hands back the document object itself; the
    library then makes the document a member of itself.  Values are trees
    here: the member added is the document as it stood, and what the
    library's alias lets later operations reach is not followed.  The
    statements that depend on it are about patches without such an
    operation ([moves_root]). *)
Definition move (doc : jsval) (o : Operation) : outcome :=
  match getValueByPointer doc (path o) with
  | Throw e => Thrown e doc
  | Ok _ =>
      if from o =? "" then
        finish doc (walk_pointer false (ActAdd doc) (path o) doc)
      else
        match walk_pointer false ActRemove (from o) doc with
        | Throw e => Thrown e doc
        | Ok doc1 =>
            finish doc1
              (walk_pointer false (ActAdd (taken_pointer (from o) doc))
                 (path o) doc1)
        end
  end.

(** A [move] of the whole document into itself. *)
Definition moves_root (o : Operation) : bool :=
  (op o =? "move") && (from o =? "") && negb (path o =? "").

(** [objOps.copy]. *)
Definition copy (doc : jsval) (o : Operation) : outcome :=
  match getValueByPointer doc (from o) with
  | Throw e => Thrown e doc
  | Ok v => finish doc (walk_pointer false (ActAdd (deepClone v)) (path o) doc)
  end.

(** [applyOperation(document, operation, validateOperation)] with a
    validator function: [validator o = true] when the validator throws. *)
Definition applyOperation (validator : Operation -> bool) (doc : jsval)
    (o : Operation) : outcome :=
  if validator o then Thrown "OPERATION_OP_INVALID" doc
  else if path o =? "" then
    if op o =? "add" then Rebound (Fresh (value o))
    else if op o =? "replace" then Rebound (Fresh (value o))
    else if (op o =? "move") || (op o =? "copy") then rebind_to doc (from o)
    else if op o =? "test" then
      if areEquals doc (value o) then Done doc
      else Thrown "TEST_OPERATION_FAILED" doc
    else if op o =? "remove" then Rebound (Fresh JNull)
    else if op o =? "_get" then Done doc
    else Thrown "OPERATION_OP_INVALID" doc
  else
    match walk_pointer true (action_of o) (path o) doc with
    | Throw e => Thrown e doc
    | Ok doc' =>
        if op o =? "move" then move doc o
        else if op o =? "copy" then copy doc o
        else Done doc'
    end.

(** The document [applyPatch] is working on: the caller's object or an
    object inside it, or a value the caller's object does not hold. *)
Inductive cursor :=
| Alias (p : list rkey)
| Detached (v : jsval).

Definition current_doc (root : jsval) (c : cursor) : jsval :=
  match c with
  | Alias p => sub root p
  | Detached v => v
  end.

Definition store_doc (root : jsval) (c : cursor) (doc : jsval) : jsval :=
  match c with
  | Alias p => put root p doc
  | Detached _ => root
  end.

(** The loop of [applyPatch] on the caller's object [root]: the object as
    the patch leaves it, and the exception if one was thrown. *)
Fixpoint applyPatch_from (validator : Operation -> bool) (root : jsval)
    (c : cursor) (patch : list Operation) : jsval * option string :=
  match patch with
  | [] => (root, None)
  | o :: rest =>
      match applyOperation validator (current_doc root c) o with
      | Done doc' =>
          applyPatch_from validator (store_doc root c doc')
            (match c with Alias _ => c | Detached _ => Detached doc' end) rest
      | Rebound (Fresh v) =>
          applyPatch_from validator root (Detached v) rest
      | Rebound (Inside q) =>
          applyPatch_from validator root
            (match c with
             | Alias p => Alias (p ++ q)
             | Detached v => Detached (sub v q)
             end) rest
      | Thrown e doc' => (store_doc root c doc', Some e)
      end
  end.

Definition applyPatch (validator : Operation -> bool) (root : jsval)
    (patch : list Operation) : jsval * option string :=
  applyPatch_from validator root (Alias []) patch.

(** The member of the document a pointer leads through: its first key,
    unescaped. *)
Definition top_key (ptr : string) : string :=
  match split "/" ptr with
  | _ :: k :: _ => unescapePathComponent k
  | _ => "undefined"
  end.

(** An operation that names the member [k] of the document, as its target
    or as its source. *)
Definition names_member (k : string) (o : Operation) : bool :=
  (top_key (path o) =? k) || (top_key (from o) =? k).

(** A cursor that is not inside the [etag] member of the caller's
    object. *)
Definition cursor_ok (c : cursor) : Prop :=
  match c with
  | Alias (RProp s :: _) => s <> "etag"
  | _ => True
  end.

End WithHost.

End JsonPatch.

(* ------------------------------------------------------------------ *)
(** ** The broker's server *)

Import JsonPatch.

(** The [Task] class, of which the server uses two members. *)
Class TaskClass := {
  (** [Task.canSet(key, value)]; the key is [undefined] ([None]) when the
      path of the operation has no second piece *)
  canSet : option string -> jsval -> bool;
  (** [task.publicSubset()] *)
  publicSubset : jsval -> jsval
}.

(** The log of a task, kept by the [Task] class and rendered by
    [buildLog]; neither source is part of the two files. *)
Class TaskLog := {
  (** [task.logText(text)]: the task with the text appended to its log *)
  logText : jsval -> string -> jsval;
  (** [buildLog(task)]: the page that shows the log *)
  buildLog : jsval -> string
}.

Module Server.

(** Modelled from the spec: the Job Store ([Broker], whose source is not
    part of the two files) is an in-memory mapping from job identifier to
    job record, listed in insertion order. *)
Definition Broker := list (string * jsval).

(** Modelled from the spec: [Broker.getTask(id)], the record stored under
    [id] or nothing. *)
Fixpoint getTask (b : Broker) (id : string) : option jsval :=
  match b with
  | [] => None
  | (k, task) :: rest => if k =? id then Some task else getTask rest id
  end.

(** Modelled from the spec: [Broker.getTasks()], the records in insertion
    order. *)
Definition getTasks (b : Broker) : list jsval := map snd b.

(** The handlers mutate the task object the broker holds; the store is
    updated with the object as the handler left it. *)
Fixpoint setTask (b : Broker) (id : string) (task : jsval) : Broker :=
  match b with
  | [] => []
  | (k, t) :: rest =>
      if k =? id then (k, task) :: rest else (k, t) :: setTask rest id task
  end.

(** [task[k] = v] on the task object. *)
Definition set_field (task : jsval) (k : string) (v : jsval) : jsval :=
  match task with
  | JObj o => JObj (obj_set o k v)
  | _ => task
  end.

(** The [etag] member of the task stored under [id]. *)
Definition stored_etag {H : Host} (b : Broker) (id : string) : option jsval :=
  option_map (fun task => opt_get task "etag") (getTask b id).

Inductive payload :=
| Empty
| Text (s : string)
| Json (v : jsval)
| Serialized (text : string) (v : jsval)   (* [text], which serializes [v] *)
| Failure (e : string).

Record Request := {
  url : string;
  headers : list (string * string);   (* names in lower case, as node keeps them *)
  query : list (string * string);     (* [req.query], in [Object.entries] order *)
  body : list Operation               (* [req.body] of a PATCH *)
}.

Record Response := {
  status : Z;
  resp_headers : list (string * string);
  resp_body : payload
}.

Fixpoint assoc (l : list (string * string)) (k : string) : option string :=
  match l with
  | [] => None
  | (k', v) :: rest => if k' =? k then Some v else assoc rest k
  end.

(** [req.header(name)] of express. *)
Definition header (req : Request) (name : string) : option string :=
  let lc := toLowerCase name in
  if (lc =? "referer") || (lc =? "referrer") then
    match assoc (headers req) "referrer" with
    | Some v => if v =? "" then assoc (headers req) "referer" else Some v
    | None => assoc (headers req) "referer"
    end
  else assoc (headers req) lc.

Fixpoint drop_trailing_empty (pieces : list string) : list string :=
  match pieces with
  | [] => []
  | p :: rest =>
      match drop_trailing_empty rest with
      | [] => if p =? "" then [] else [p]
      | rest' => p :: rest'
      end
  end.

(** [path.basename(p)]: the last piece of the path, trailing slashes
    aside. *)
Definition basename (p : string) : string :=
  last (drop_trailing_empty (split "/" p)) "".

Section Handlers.
Context {H : Host} {T : TaskClass}.

Definition getTaskBody (task : jsval) : string * string :=
  let body := JSON_stringify (publicSubset task) in
  let etag := create_etag body in
  (body, etag).

Definition unknown_job (id : string) : Response :=
  {| status := 404; resp_headers := [];
     resp_body := Text ("Unknown job '" ++ id ++ "'") |}.

Definition getJob (b : Broker) (req : Request) : Broker * Response :=
  let id := basename (url req) in
  match getTask b id with
  | None => (b, unknown_job id)
  | Some task =>
      let '(body, etag) := getTaskBody task in
      let visible := publicSubset task in
      let task := set_field task "etag" (JStr etag) in
      (setTask b id task,
       {| status := 200;
          resp_headers := [("ETag", etag); ("Content-Type", "application/json")];
          resp_body := Serialized body visible |})
  end.

(** [if_etag && if_etag !== task.etag]. *)
Definition precondition_fails (if_etag : option string) (task : jsval) : bool :=
  match if_etag with
  | None => false
  | Some e =>
      negb (e =? "") &&
      negb (match opt_get task "etag" with
            | JStr stored => e =? stored
            | _ => false
            end)
  end.

Definition mutating : list string :=
  ["add"; "copy"; "move"; "remove"; "replace"].

(** The validator [patchJob] hands to [applyPatch]: [true] when it throws
    the [JsonPatchError]. *)
Definition rejects (o : Operation) : bool :=
  if existsb (String.eqb (op o)) mutating then
    let prop := nth_error (split "/" (path o)) 1 in
    let value := if truthy (value o) then value o else JUndefined in
    negb (canSet prop value)
  else false.

Definition patchJob (b : Broker) (req : Request) : Broker * Response :=
  let id := basename (url req) in
  match getTask b id with
  | None => (b, unknown_job id)
  | Some task =>
      let if_header := "If-Match" in
      let if_etag := header req if_header in
      if precondition_fails if_etag task then
        (b,
         {| status := 412; resp_headers := [];
            resp_body :=
              Text ("Invalid " ++ if_header ++ " header: " ++
                    match if_etag with Some e => e | None => "" end) |})
      else
        match applyPatch rejects task (body req) with
        | (task, None) =>
            let '(_, etag) := getTaskBody task in
            (setTask b id task,
             {| status := 200; resp_headers := [("ETag", etag)];
                resp_body := Empty |})
        | (task, Some err) =>
            (setTask b id task,
             {| status := 400; resp_headers := []; resp_body := Failure err |})
        end
  end.

(** [v == value] for a query alternative [v], a string. *)
Definition loose_eq (v : string) (x : jsval) : bool :=
  match x with
  | JStr s => v =? s
  | JNum n =>
      match StringToNumber v with
      | Some m => (m =? n)%Z
      | None => false
      end
  | JBool b =>
      match StringToNumber v with
      | Some m => (m =? (if b then 1 else 0))%Z
      | None => false
      end
  | JUndefined | JNull => false
  | JArr _ | JObj _ | JFun _ => v =? ObjectToString x
  end.

(** One pass of the loop of [filter]: the candidates one query entry
    keeps. *)
Definition filter_entry (filtered : list jsval) (entry : string * string)
  : list jsval :=
  let key := fst entry in
  let negate := match last_char key with
                | Some c => Ascii.eqb c "!"
                | None => false
                end in
  let key := if negate then drop_last key else key in
  let names := split "." key in
  let values := List.filter (fun v => truthy (JStr v)) (split "," (snd entry)) in
  List.filter
    (fun value =>
       let value := fold_left opt_get names value in
       let value := match value with
                    | JUndefined => JStr "undefined"
                    | _ => value
                    end in
       let matched := existsb (fun v => loose_eq v value) values in
       if negate then negb matched else matched)
    filtered.

Definition filter (beginning_set : list jsval) (query : list (string * string))
  : list jsval :=
  fold_left filter_entry query beginning_set.

Definition getJobs (b : Broker) (req : Request) : Broker * Response :=
  let tasks := map publicSubset (getTasks b) in
  let ids := map (fun task => opt_get task "id") (filter tasks (query req)) in
  (b, {| status := 200; resp_headers := []; resp_body := Json (JArr ids) |}).

End Handlers.

(** *** The log routes *)

(** A PUT on the log: the url and the text body. *)
Record LogRequest := {
  log_url : string;
  log_text : string
}.

(** The characters the [.] of a regular expression does not match. *)
Definition line_terminator (c : ascii) : bool :=
  let n := nat_of_ascii c in ((n =? 10) || (n =? 13))%nat.

Fixpoint strip_prefix (p s : string) : option string :=
  match p with
  | EmptyString => Some s
  | String c p' =>
      match s with
      | String d s' => if Ascii.eqb c d then strip_prefix p' s' else None
      | EmptyString => None
      end
  end.


(** The greedy group followed by [pat], matched at the start of [s]: the
    longest run without line terminator that [pat] follows. *)
Fixpoint capture_before (pat s : string) : option string :=
  let here := match strip_prefix pat s with
              | Some _ => Some EmptyString
              | None => None
              end in
  match s with
  | EmptyString => here
  | String c rest =>
      match (if line_terminator c then None else capture_before pat rest) with
      | Some t => Some (String c t)
      | None => here
      end
  end.

(** The group the regular expression of [putLog] captures: the text
    between [/api/jobs/] and [/log], taken greedily, at the leftmost place
    the expression matches; [None] when it matches nowhere. *)
Fixpoint exec_job_log (url : string) : option string :=
  let here := match strip_prefix "/api/jobs/" url with
              | Some rest => capture_before "/log" rest
              | None => None
              end in
  match here with
  | Some id => Some id
  | None =>
      match url with
      | EmptyString => None
      | String _ rest => exec_job_log rest
      end
  end.

Section LogHandlers.
Context {L : TaskLog}.

Definition getLog (b : Broker) (req : Request) : Broker * Response :=
  let id := basename (url req) in
  match getTask b id with
  | None => (b, unknown_job id)
  | Some task =>
      (b, {| status := 200;
             resp_headers := [("Content-Type", "text/html; charset=UTF-8")];
             resp_body := Text (buildLog task) |})
  end.

(** When the expression does not match, destructuring its [null] throws,
    and express answers 500. *)
Definition putLog (b : Broker) (req : LogRequest) : Broker * Response :=
  match exec_job_log (log_url req) with
  | None =>
      (b, {| status := 500; resp_headers := [];
             resp_body := Failure "TypeError" |})
  | Some id =>
      match getTask b id with
      | Some task =>
          (setTask b id (logText task (log_text req)),
           {| status := 200; resp_headers := []; resp_body := Empty |})
      | None => (b, unknown_job id)
      end
  end.

End LogHandlers.

(** *** The routes

    The constructor registers the handlers with express, in this order:
    GET [/api/jobs/], GET [/api/jobs/*], GET [/log/*], PATCH
    [/api/jobs/*], POST [/api/jobs], PUT [/api/jobs/*/log].  Express
    matches a route against the path of the url, the text before the
    first [?], letters in either case, a [/] at the end allowed, and
    takes the first route of the method that matches; the text a [*]
    stands for is decoded, and when it does not decode the answer is 400
    and no handler runs. *)

Definition pathname (url : string) : string := hd "" (split "?" url).

Definition hex_value (c : ascii) : option nat :=
  let n := nat_of_ascii c in
  if ((48 <=? n) && (n <=? 57))%nat then Some (n - 48)
  else if ((65 <=? n) && (n <=? 70))%nat then Some (n - 55)
  else if ((97 <=? n) && (n <=? 102))%nat then Some (n - 87)
  else None.

(** The octet of an escape [%XY] at the head of a text, and the rest. *)
Definition escape (s : string) : option (nat * string) :=
  match s with
  | String "%" (String x (String y rest)) =>
      match hex_value x, hex_value y with
      | Some a, Some b => Some (16 * a + b, rest)
      | _, _ => None
      end
  | _ => None
  end.

(** [n] escapes of continuation octets, the first within [lo] and
    [hi]. *)
Fixpoint continuation (n : nat) (lo hi : nat) (s : string) : option string :=
  match n with
  | O => Some s
  | S n =>
      match escape s with
      | Some (b, rest) =>
          if ((lo <=? b) && (b <=? hi))%nat then continuation n 128 191 rest
          else None
      | None => None
      end
  end.

(** [decodeURIComponent(s)] does not throw: every [%] begins an escape,
    and the octets of the escapes are UTF-8. *)
Fixpoint decodes (fuel : nat) (s : string) : bool :=
  match fuel with
  | O => true
  | S fuel =>
      match s with
      | EmptyString => true
      | String "%" _ =>
          match escape s with
          | None => false
          | Some (b, rest) =>
              let after :=
                if (b <? 128)%nat then Some rest
                else if (b <? 194)%nat then None
                else if (b <? 224)%nat then continuation 1 128 191 rest
                else if (b =? 224)%nat then continuation 2 160 191 rest
                else if (b =? 237)%nat then continuation 2 128 159 rest
                else if (b <? 240)%nat then continuation 2 128 191 rest
                else if (b =? 240)%nat then continuation 3 144 191 rest
                else if (b <? 244)%nat then continuation 3 128 191 rest
                else if (b =? 244)%nat then continuation 3 128 143 rest
                else None in
              match after with
              | Some rest => decodes fuel rest
              | None => false
              end
          end
      | String _ rest => decodes fuel rest
      end
  end.

Definition decodable (s : string) : bool := decodes (String.length s) s.

(** The text the [*] of [prefix*] stands for in a path, when the route
    matches. *)
Definition star (prefix path : string) : option string :=
  match strip_prefix prefix (toLowerCase path) with
  | Some _ =>
      Some (String.substring (String.length prefix)
              (String.length path - String.length prefix) path)
  | None => None
  end.

Fixpoint ends_with (suffix s : string) : bool :=
  (s =? suffix) ||
  match s with
  | EmptyString => false
  | String _ rest => ends_with suffix rest
  end.

Inductive route :=
| ListJobs
| GetJob
| GetLog
| PatchJob
| PutLog
| BadParam        (* the text of the star does not decode *)
| NoRoute.

Definition decoded (s : string) (r : route) : route :=
  if decodable s then r else BadParam.

(** The route express takes for a method and a url, among those of GET,
    PATCH and PUT. *)
Definition route_of (method url : string) : route :=
  let path := pathname url in
  let lower := toLowerCase path in
  if method =? "GET" then
    if (lower =? "/api/jobs") || (lower =? "/api/jobs/") then ListJobs
    else
      match star "/api/jobs/" path with
      | Some s => decoded s GetJob
      | None =>
          match star "/log/" path with
          | Some s => decoded s GetLog
          | None => NoRoute
          end
      end
  else if method =? "PATCH" then
    match star "/api/jobs/" path with
    | Some s => decoded s PatchJob
    | None => NoRoute
    end
  else if method =? "PUT" then
    match star "/api/jobs/" path with
    | Some s =>
        if ends_with "/log" (toLowerCase s) then
          decoded (String.substring 0 (String.length s - 4) s) PutLog
        else if ends_with "/log/" (toLowerCase s) then
          decoded (String.substring 0 (String.length s - 5) s) PutLog
        else NoRoute
    | None => NoRoute
    end
  else NoRoute.

(** The answers of express itself. *)
Definition no_route (method url : string) : Response :=
  {| status := 404; resp_headers := [];
     resp_body := Text ("Cannot " ++ method ++ " " ++ pathname url) |}.

Definition bad_param : Response :=
  {| status := 400; resp_headers := []; resp_body := Failure "URIError" |}.

(** An operation that reads only: the [test] of the RFC, and the [_get]
    of the library. *)
Definition reads_only (o : Operation) : bool :=
  (op o =? "test") || (op o =? "_get").

(** What a handler does to the store: nothing, or one record replaced. *)
Inductive touches (b : Broker) (id : string) : Broker -> Prop :=
| touches_nothing : touches b id b
| touches_record (task : jsval) : touches b id (setTask b id task).

(** The store after a sequence of PATCH requests. *)
Definition patched {H : Host} {T : TaskClass} (b : Broker)
    (reqs : list Request) : Broker :=
  fold_left (fun b req => fst (patchJob b req)) reqs b.

End Server.

(* ------------------------------------------------------------------ *)
(** ** The runner *)

(** What the output parser makes of the tool's output: a narrowed range, a
    result without [success], or an exception. *)
Inductive ParseOutcome :=
| Narrowed (goodVersion badVersion : string)
| NotNarrowed
| ParseThrows (text : string).

(** [parseFiddleBisectOutput], whose source is not part of the two
    files. *)
Class Parser := {
  parseFiddleBisectOutput : string -> ParseOutcome
}.

Module Runner.

Record t := {
  platform : string;
  uuid : string;
  brokerUrl : string;
  childTimeoutMs : Z;
  fiddleExec : string;
  pollIntervalMs : Z;
  etag : option string;
  interval : bool;              (* a timer is set *)
  jobId : option string;
  timeBegun : option Z
}.

Definition with_claim (r : t) (e : option string) (id : option string)
    (begun : option Z) : t :=
  {| platform := platform r; uuid := uuid r; brokerUrl := brokerUrl r;
     childTimeoutMs := childTimeoutMs r; fiddleExec := fiddleExec r;
     pollIntervalMs := pollIntervalMs r;
     etag := e; interval := interval r; jobId := id; timeBegun := begun |}.

Definition with_etag (r : t) (e : option string) : t :=
  with_claim r e (jobId r) (timeBegun r).

Definition with_interval (r : t) (i : bool) : t :=
  {| platform := platform r; uuid := uuid r; brokerUrl := brokerUrl r;
     childTimeoutMs := childTimeoutMs r; fiddleExec := fiddleExec r;
     pollIntervalMs := pollIntervalMs r;
     etag := etag r; interval := i; jobId := jobId r;
     timeBegun := timeBegun r |}.

(** A request handed to [got].  Its URL is kept as the two arguments of
    [new URL]: the path the code spells, written from the root, and the
    base, which is [brokerUrl].  Then the search parameters, the headers
    the code sets, and the JSON body.  ([got] adds headers of its own,
    such as [user-agent] and [content-type]; none of them is a
    precondition header.) *)
Record HttpRequest := {
  method : string;
  target : string;
  base : string;
  searchParams : list (string * string);
  req_headers : list (string * string);
  json : list Operation
}.

(** What comes back: the status, the headers (names in lower case) and the
    parsed body. *)
Record HttpResponse := {
  statusCode : Z;
  res_headers : list (string * string);
  res_body : jsval
}.

(** [`${v}`] for a field that may have been deleted. *)
Definition template (v : option string) : string :=
  match v with
  | Some s => s
  | None => "undefined"
  end.

Definition fetchAvailableJobs (r : t) : HttpRequest :=
  {| method := "GET";
     target := "/api/jobs";
     base := brokerUrl r;
     searchParams :=
       [("platform", (platform r ++ ",undefined")%string);
        ("current.runner", "undefined");
        ("last.status", "undefined");
        ("type", "bisect")];
     req_headers := [];
     json := [] |}.

Definition fetchJobAndEtag (r : t) (id : string) : HttpRequest :=
  {| method := "GET"; target := ("/api/jobs/" ++ id)%string;
     base := brokerUrl r;
     searchParams := []; req_headers := []; json := [] |}.

(** The request [patchJob] sends. *)
Definition patchJob (r : t) (patches : list Operation) : HttpRequest :=
  {| method := "PATCH";
     target := ("/api/jobs/" ++ template (jobId r))%string;
     base := brokerUrl r;
     searchParams := [];
     req_headers := match etag r with
                    | Some e => [("etag", e)]
                    | None => []
                    end;
     json := patches |}.

(** [got] follows redirects, and rejects when the status of the
    response it ends with is neither 2xx nor 304. *)
Definition http_ok (resp : HttpResponse) : bool :=
  (((200 <=? statusCode resp) && (statusCode resp <=? 299))
   || (statusCode resp =? 304))%Z.

(** The rest of [patchJob], and of [fetchJobAndEtag], once the response is
    there: the etag of the response, or an exception. *)
Definition response_etag (resp : HttpResponse) : res string :=
  if http_ok resp then
    match Server.assoc (res_headers resp) "etag" with
    | Some e => if e =? "" then Throw "missing etag in broker job response"
                else Ok e
    | None => Throw "missing etag in broker job response"
    end
  else Throw "HTTPError".

Definition patchJob_done (r : t) (resp : HttpResponse) : res t :=
  e <- response_etag resp ;; Ok (with_etag r (Some e)).

Definition js_time (v : option Z) : jsval :=
  match v with
  | Some n => JNum n
  | None => JUndefined
  end.

(** The [Result] that [patchResult] reports. *)
Definition result_of (r : t) (now : Z) (result : props) : jsval :=
  let defaults :=
    [("runner", JStr (uuid r));
     ("status", JStr "system_error");
     ("time_begun", js_time (timeBegun r));
     ("time_ended", JNum now)] in
  JObj (obj_assign defaults result).

Definition patchResult (r : t) (now : Z) (result : props) : HttpRequest :=
  let result := result_of r now result in
  patchJob r
    [ {| op := "add"; path := "/history/-"; from := ""; value := result |};
      {| op := "replace"; path := "/last"; from := ""; value := result |};
      {| op := "remove"; path := "/current"; from := ""; value := JUndefined |} ].

Section Bisect.
Context {P : Parser}.

(** The [close] handler of [runBisect]: the partial result built from the
    collected output and the exit code ([None] for [null]). *)
Definition onClose (stdout : list string) (exitCode : option Z) : props :=
  let result : props := [] in
  let output := join "" stdout in
  match parseFiddleBisectOutput output with
  | Narrowed goodVersion badVersion =>
      let result := obj_set result "status" (JStr "success") in
      obj_set result "bisect_range" (JArr [JStr goodVersion; JStr badVersion])
  | NotNarrowed =>
      let result :=
        obj_set result "error"
          (JStr "Failed to narrow test down to two versions") in
      obj_set result "status"
        (JStr (match exitCode with
               | Some code => if (code =? 1)%Z then "test_error"
                              else "system_error"
               | None => "system_error"
               end))
  | ParseThrows text =>
      let result := obj_set result "status" (JStr "system_error") in
      obj_set result "error" (JStr text)
  end.

End Bisect.

(** How the child of [runBisect] ends: it closes, or it fails to start or
    to run. *)
Inductive ending :=
| Closed (stdout : list string) (exitCode : option Z)
| Errored (err : string).

(** The [error] handler of [runBisect]. *)
Definition onError (err : string) : props :=
  [("error", JStr err); ("status", JStr "system_error")].

(** The partial result the handlers of [runBisect] hand to
    [patchResult]. *)
Definition classified {P : Parser} (e : ending) : props :=
  match e with
  | Closed stdout exitCode => onClose stdout exitCode
  | Errored err => onError err
  end.

Section Claim.
Context {H : Host}.

(** [this.jobId = job.id]: the field is read in url templates only, and
    is kept as the text a template makes of it; [None] is [undefined]. *)
Definition job_id (job : jsval) : option string :=
  match opt_get job "id" with
  | JUndefined => None
  | v => Some (ToString v)
  end.

(** The claim of [poll]: the bookkeeping is set, then the claiming patch
    is sent. *)
Definition claim (r : t) (job : jsval) (initialEtag : string) (now : Z)
  : t * HttpRequest :=
  let r := with_claim r (Some initialEtag) (job_id job) (Some now) in
  let current := JObj [("runner", JStr (uuid r)); ("time_begun", js_time (timeBegun r))] in
  (r, patchJob r [ {| op := "replace"; path := "/current"; from := "";
                      value := current |} ]).

End Claim.

(** The cleanup at the end of [poll]. *)
Definition cleanup (r : t) : t := with_claim r None None None.

(** *** The loop

    [start] sets a timer that calls [pollSafely] every [pollIntervalMs] and
    calls it once at once.  [poll] is asynchronous: an invocation runs up
    to its next [await] and goes on when the awaited promise settles.  The
    runner below holds the invocations that have begun and not yet
    finished, each with the point it waits at.  An invocation that throws
    is caught by [pollSafely] and is over.  The log appends of [runBisect]
    are left out. *)

Inductive waits :=
| AwaitJobs                     (* [await this.fetchAvailableJobs()] *)
| AwaitJob                      (* [await this.fetchJobAndEtag(jobId)] *)
| AwaitClaim (job : jsval)      (* [await this.patchJob(...)] *)
| ChildRunning                  (* [await this.runBisect(...)], child alive *)
| Reporting.                    (* the same, [patchResult] under way *)

Inductive action :=
| Send (poll : nat) (req : HttpRequest)
| Spawn (poll : nat) (args : list string).

Record loop := {
  self : t;
  polls : list (nat * waits);   (* invocations of [poll] in flight *)
  next_poll : nat;
  sent : list action            (* what the runner did, oldest first *)
}.

Inductive event :=
| Timer                                        (* the interval fires *)
| Response (poll : nat) (resp : HttpResponse) (now : Z)
| ChildClose (poll : nat) (stdout : list string) (exitCode : option Z) (now : Z)
| ChildError (poll : nat) (err : string) (now : Z).

(** The event with which the child of invocation [p] ends. *)
Definition ended (p : nat) (e : ending) (now : Z) : event :=
  match e with
  | Closed stdout exitCode => ChildClose p stdout exitCode now
  | Errored err => ChildError p err now
  end.

Fixpoint waiting (ps : list (nat * waits)) (p : nat) : option waits :=
  match ps with
  | [] => None
  | (q, w) :: rest => if (q =? p)%nat then Some w else waiting rest p
  end.

Fixpoint set_waiting (ps : list (nat * waits)) (p : nat) (w : waits)
  : list (nat * waits) :=
  match ps with
  | [] => []
  | (q, w') :: rest =>
      if (q =? p)%nat then (q, w) :: rest else (q, w') :: set_waiting rest p w
  end.

Definition finished (ps : list (nat * waits)) (p : nat) : list (nat * waits) :=
  List.filter (fun qw => negb (fst qw =? p)%nat) ps.

(** [pollSafely]: a call of [poll], which runs to its first [await]. *)
Definition pollSafely (l : loop) : loop :=
  let p := next_poll l in
  {| self := self l;
     polls := polls l ++ [(p, AwaitJobs)];
     next_poll := S p;
     sent := sent l ++ [Send p (fetchAvailableJobs (self l))] |}.

Definition stop (l : loop) : loop :=
  {| self := with_interval (self l) false; polls := polls l;
     next_poll := next_poll l; sent := sent l |}.

Definition start (l : loop) : loop :=
  let l := stop l in
  pollSafely {| self := with_interval (self l) true; polls := polls l;
                next_poll := next_poll l; sent := sent l |}.

Section Loop.
Context {H : Host} {P : Parser}.

(** An argument of [spawn] as the child gets it: the runtime makes a
    string of each. *)
Definition js_string (v : jsval) : string := ToString v.

(** An invocation of [poll] goes on after its [await]. *)
Definition resume (l : loop) (p : nat) (w : waits) (ev : event) : loop :=
  let r := self l in
  let goes_on r w acts :=
    {| self := r; polls := set_waiting (polls l) p w;
       next_poll := next_poll l; sent := sent l ++ acts |} in
  let ends r acts :=
    {| self := r; polls := finished (polls l) p;
       next_poll := next_poll l; sent := sent l ++ acts |} in
  match w, ev with
  | AwaitJobs, Response _ resp _ =>
      if http_ok resp then
        match res_body resp with
        | JArr (id :: _) =>
            if truthy id
            then goes_on r AwaitJob [Send p (fetchJobAndEtag r (ToString id))]
            else ends r []
        | _ => ends r []      (* no first element, or [shift] throws *)
        end
      else ends r []
  | AwaitJob, Response _ resp now =>
      match response_etag resp with
      | Throw _ => ends r []
      | Ok initialEtag =>
          match res_body resp with
          | JUndefined => ends r []     (* the body does not parse *)
          | JNull =>                    (* [job.id] throws *)
              ends (with_etag r (Some initialEtag)) []
          | job =>
              let '(r, req) := claim r job initialEtag now in
              goes_on r (AwaitClaim job) [Send p req]
          end
      end
  | AwaitClaim job, Response _ resp _ =>
      match patchJob_done r resp with
      | Throw _ => ends r []
      | Ok r =>
          match opt_get job "type" with
          | JStr "bisect" =>
              match opt_get job "bisect_range" with
              | JUndefined | JNull => ends r []   (* [range[0]] throws *)
              | range =>
                  goes_on r ChildRunning
                    [Spawn p ["bisect"; js_string (opt_get range "0");
                              js_string (opt_get range "1"); "--fiddle";
                              js_string (opt_get job "gist")]]
              end
          | _ => ends (cleanup r) []
          end
      end
  | ChildRunning, Response _ resp _ =>
      (* the answer to the report of the [error] handler *)
      match patchJob_done r resp with
      | Throw _ => l
      | Ok r => goes_on r ChildRunning []
      end
  | ChildRunning, ChildError _ err now =>
      goes_on r ChildRunning [Send p (patchResult r now (onError err))]
  | ChildRunning, ChildClose _ stdout exitCode now =>
      goes_on r Reporting [Send p (patchResult r now (onClose stdout exitCode))]
  | Reporting, Response _ resp _ =>
      match patchJob_done r resp with
      | Throw _ => l          (* the promise of [runBisect] never resolves *)
      | Ok r => ends (cleanup r) []
      end
  | _, _ => l
  end.

Definition step (l : loop) (ev : event) : loop :=
  match ev with
  | Timer => if interval (self l) then pollSafely l else l
  | Response p _ _ | ChildClose p _ _ _ | ChildError p _ _ =>
      match waiting (polls l) p with
      | Some w => resume l p w ev
      | None => l
      end
  end.

End Loop.

Definition in_flight (l : loop) : nat := length (polls l).

(** What a step that starts nothing leaves: the timer as it was, no more
    invocations than before, the same counter. *)
Record advances (l l' : loop) : Prop := {
  keeps_timer : interval (self l') = interval (self l);
  keeps_count : in_flight l' <= in_flight l;
  keeps_next : next_poll l' = next_poll l
}.

(** The loop after a sequence of events. *)
Definition run {H : Host} {P : Parser} (l : loop) (evs : list event) : loop :=
  fold_left step evs l.

(** The request [putLog] sends. *)
Record LogRequest := {
  log_method : string;
  log_target : string;
  log_base : string;
  log_headers : list (string * string);
  log_body : string
}.

Definition putLog (r : t) (data : string) : LogRequest :=
  let body := data in
  {| log_method := "PUT";
     log_target := ("/api/jobs/" ++ template (jobId r) ++ "/log")%string;
     log_base := brokerUrl r;
     log_headers := [("Content-Type", "text/plain; charset=utf-8")];
     log_body := body |}.

Definition fresh (r : t) : loop :=
  {| self := r; polls := []; next_poll := 0; sent := [] |}.

(** The first argument of [new URL]: the code spells the path without
    the [/] at its head. *)
Definition url_input (target : string) : string :=
  match target with
  | String "/" rest => rest
  | _ => target
  end.

End Runner.

(* ------------------------------------------------------------------ *)
(** ** Between the two

    A request of the runner as the server's handler receives it: the url
    is the one [new URL] makes of the path and [brokerUrl], node keeps
    header names in lower case, and the JSON body is what
    [JSON.parse(JSON.stringify(...))] makes of it. *)

Section Wire.
Context {H : Host}.

Definition wire_operation (o : Operation) : Operation :=
  {| op := op o; path := path o; from := from o;
     value := match value o with
              | JUndefined => JUndefined
              | v => cloneJSON v
              end |}.

Definition deliver (r : Runner.HttpRequest) : Server.Request :=
  {| Server.url := URL_target (Runner.url_input (Runner.target r)) (Runner.base r);
     Server.headers :=
       map (fun h => (toLowerCase (fst h), snd h)) (Runner.req_headers r);
     Server.query := Runner.searchParams r;
     Server.body := map wire_operation (Runner.json r) |}.

(** The response as the runner receives it. *)
Definition deliver_back (r : Server.Response) : Runner.HttpResponse :=
  {| Runner.statusCode := Server.status r;
     Runner.res_headers :=
       map (fun h => (toLowerCase (fst h), snd h)) (Server.resp_headers r);
     Runner.res_body := match Server.resp_body r with
                        | Server.Json v | Server.Serialized _ v => cloneJSON v
                        | _ => JUndefined
                        end |}.


End Wire.

(** A value without [undefined] or a function inside, which
    [JSON.stringify] keeps whole. *)
Fixpoint defined_everywhere (v : jsval) : bool :=
  match v with
  | JUndefined => false
  | JArr l =>
      (fix items (l : list jsval) : bool :=
         match l with
         | [] => true
         | x :: rest => defined_everywhere x && items rest
         end) l
  | JObj o =>
      (fix members (o : list (string * jsval)) : bool :=
         match o with
         | [] => true
         | (_, x) :: rest => defined_everywhere x && members rest
         end) o
  | JFun _ => false
  | _ => true
  end.

(** The server at a request of the runner made with GET or PATCH: the
    route, then the handler. *)
Definition serve {H : Host} {T : TaskClass} {L : TaskLog} (b : Server.Broker)
    (r : Runner.HttpRequest) : Server.Broker * Runner.HttpResponse :=
  let req := deliver r in
  let '(b, resp) :=
    match Server.route_of (Runner.method r) (Server.url req) with
    | Server.ListJobs => Server.getJobs b req
    | Server.GetJob => Server.getJob b req
    | Server.GetLog => Server.getLog b req
    | Server.PatchJob => Server.patchJob b req
    | Server.BadParam => (b, Server.bad_param)
    | _ => (b, Server.no_route (Runner.method r) (Server.url req))
    end in
  (b, deliver_back resp).


(** The last request an invocation of [poll] sent. *)
Fixpoint last_request (sent : list Runner.action) (p : nat)
  : option Runner.HttpRequest :=
  match sent with
  | [] => None
  | a :: rest =>
      match last_request rest p with
      | Some req => Some req
      | None =>
          match a with
          | Runner.Send q req => if (q =? p)%nat then Some req else None
          | Runner.Spawn _ _ => None
          end
      end
  end.

(** The broker answers the request invocation [p] waits for, and the
    invocation goes on at time [now]. *)
Definition exchange {H : Host} {T : TaskClass} {L : TaskLog} {P : Parser}
    (w : Server.Broker * Runner.loop) (p : nat) (now : Z)
  : Server.Broker * Runner.loop :=
  match last_request (Runner.sent (snd w)) p with
  | Some req =>
      let '(b, resp) := serve (fst w) req in
      (b, Runner.step (snd w) (Runner.Response p resp now))
  | None => w
  end.

(* ------------------------------------------------------------------ *)
(** ** The job records of the data model *)

Module Interfaces.

(** Modelled from the spec: the [Current] claim record (the shared
    interface declarations are not part of the two files). *)
Record Current := {
  runner : string;
  time_begun : Z
}.

(** Modelled from the spec: the status of a [Result], one of [success],
    [test_error], [system_error]. *)
Inductive Status := success | test_error | system_error.

Definition status_name (s : Status) : string :=
  match s with
  | success => "success"
  | test_error => "test_error"
  | system_error => "system_error"
  end.

(** Modelled from the spec: the [Result] of one execution attempt. *)
Record Result := {
  result_runner : string;
  status : Status;
  result_time_begun : Z;
  time_ended : Z;
  error : option string;
  result_bisect_range : option (string * string)
}.

(** Modelled from the spec: the [Job] record; [platform], [current] and
    [last] are optional. *)
Record Job := {
  id : string;
  type : string;
  bisect_range : string * string;
  gist : string;
  platform : option string;
  current : option Current;
  last : option Result;
  history : list Result;
  bot_client_data : props
}.

Definition optional (k : string) (v : option jsval) : props :=
  match v with
  | Some x => [(k, x)]
  | None => []
  end.

Definition range_json (r : string * string) : jsval :=
  JArr [JStr (fst r); JStr (snd r)].

Definition current_json (c : Current) : jsval :=
  JObj [("runner", JStr (runner c)); ("time_begun", JNum (time_begun c))].

Definition result_json (r : Result) : jsval :=
  JObj ([("runner", JStr (result_runner r));
         ("status", JStr (status_name (status r)));
         ("time_begun", JNum (result_time_begun r));
         ("time_ended", JNum (time_ended r))]
        ++ optional "error" (option_map JStr (error r))
        ++ optional "bisect_range" (option_map range_json (result_bisect_range r))).

(** The job as the list endpoint sees it: an object with a member for each
    field that is set. *)
Definition job_json (j : Job) : jsval :=
  JObj ([("id", JStr (id j));
         ("type", JStr (type j));
         ("bisect_range", range_json (bisect_range j));
         ("gist", JStr (gist j));
         ("history", JArr (map result_json (history j)));
         ("bot_client_data", JObj (bot_client_data j))]
        ++ optional "platform" (option_map JStr (platform j))
        ++ optional "current" (option_map current_json (current j))
        ++ optional "last" (option_map result_json (last j))).

Definition unset {A} (o : option A) : bool :=
  match o with
  | None => true
  | Some _ => false
  end.

(** Modelled from the spec: a job is available for claim to a worker on
    platform [p] when its platform is [p] or unset, [current] is unset,
    [last] is unset and its type is [bisect]. *)
Definition available (p : string) (j : Job) : bool :=
  match platform j with
  | None => true
  | Some q => q =? p
  end
  && unset (current j) && unset (last j) && (type j =? "bisect").

End Interfaces.

(* ------------------------------------------------------------------ *)
(** ** The filter as the query grammar describes it

    Modelled from the spec: the semantics of a query key, in the words
    of the Query Filter Grammar.  A field of a record is a member the
    record holds; nothing else has fields.  The rules are written over
    the way a name is read from a value, so that they can be stated of
    fields, as the grammar has them, and of the property read of the
    code. *)

Module Grammar.
Section Grammar.
Context {H : Host}.

(** A key ending in [!] is negated. *)
Definition negated (key : string) : bool :=
  match last_char key with
  | Some c => Ascii.eqb c "!"
  | None => false
  end.

(** The dotted path of a key, the [!] aside. *)
Definition names_of (key : string) : list string :=
  split "." (if negated key then drop_last key else key).

(** Modelled from the spec: the field [name] of a value, [undefined] when
    the value is no record or the record has no such field. *)
Definition field (v : jsval) (name : string) : jsval :=
  match v with
  | JObj o => obj_get o name
  | _ => JUndefined
  end.

(** Every comma-separated piece of a query value. *)
Definition pieces (v : string) : list string := split "," v.

(** The alternatives of a query value: its non-empty pieces. *)
Definition alternatives (v : string) : list string :=
  List.filter (fun a => negb (a =? "")) (pieces v).

Section Lookup.
Variable get : jsval -> string -> jsval.

(** A dotted path resolved from a candidate; a path that ends on nothing
    reads as the string [undefined]. *)
Definition resolve_by (candidate : jsval) (names : list string) : jsval :=
  match fold_left get names candidate with
  | JUndefined => JStr "undefined"
  | v => v
  end.

(** One key over a list of alternatives: ANY of them without negation,
    NONE of them with. *)
Definition passes_over_by (alts : list string) (candidate : jsval)
    (key : string) : bool :=
  let v := resolve_by candidate (names_of key) in
  if negated key then forallb (fun a => negb (Server.loose_eq a v)) alts
  else existsb (fun a => Server.loose_eq a v) alts.

(** The keys of a query, AND-combined, over the non-empty alternatives. *)
Definition passes_by (candidate : jsval) (query : list (string * string))
  : bool :=
  forallb (fun e => passes_over_by (alternatives (snd e)) candidate (fst e))
          query.

End Lookup.

(** Modelled from the spec: a dotted key resolves through nested fields,
    a missing intermediate or absent final field reading as the string
    [undefined]. *)
Definition resolve : jsval -> list string -> jsval := resolve_by field.

(** Modelled from the spec: a candidate passes a key. *)
Definition passes_over : list string -> jsval -> string -> bool :=
  passes_over_by field.

(** Modelled from the spec: a candidate passes a query. *)
Definition passes : jsval -> list (string * string) -> bool :=
  passes_by field.

(** The same over every comma-separated piece, empty ones included. *)
Definition passes_every_piece (candidate : jsval)
    (query : list (string * string)) : bool :=
  forallb (fun e => passes_over (pieces (snd e)) candidate (fst e)) query.

End Grammar.
End Grammar.

(* ------------------------------------------------------------------ *)
(** ** An instance to evaluate with *)

Module Sample.

Definition quote : string := String (ascii_of_nat 34) EmptyString.

Fixpoint digits (fuel : nat) (n : Z) (acc : string) : string :=
  match fuel with
  | O => acc
  | S fuel =>
      let acc := String (ascii_of_nat (48 + Z.to_nat (n mod 10))) acc in
      if (n <? 10)%Z then acc else digits fuel (n / 10) acc
  end.

Definition show_Z (n : Z) : string :=
  if (n <? 0)%Z then ("-" ++ digits 64 (- n) "")%string
  else digits 64 n "".

(** A serializer in the manner of [JSON.stringify] (no escapes inside
    strings). *)
Fixpoint stringify (v : jsval) : string :=
  match v with
  | JUndefined | JNull => "null"
  | JBool true => "true"
  | JBool false => "false"
  | JNum n => show_Z n
  | JStr s => quote ++ s ++ quote
  | JArr l => "[" ++ join "," (map stringify l) ++ "]"
  | JObj o =>
      "{" ++ join ","
        ((fix members (o : list (string * jsval)) : list string :=
            match o with
            | [] => []
            | (k, JUndefined) :: rest => members rest
            | (k, JFun _) :: rest => members rest
            | (k, x) :: rest =>
                (quote ++ k ++ quote ++ ":" ++ stringify x) :: members rest
            end) o) ++ "}"
  | JFun _ => "null"
  end%string.

Fixpoint decimal (s : string) : bool :=
  match s with
  | EmptyString => false
  | String c EmptyString => is_digit c
  | String c rest => is_digit c && decimal rest
  end.

Definition show (v : jsval) : string :=
  match v with
  | JStr s => s
  | JNum n => show_Z n
  | JBool true => "true"
  | JBool false => "false"
  | JNull | JUndefined => ""
  | JArr _ => ""
  | JObj _ => "[object Object]"
  | JFun f => "function " ++ f ++ "() { [native code] }"
  end%string.

(** A toy digest standing for the hash of the [etag] package. *)
Fixpoint checksum (acc : Z) (s : string) : Z :=
  match s with
  | EmptyString => acc
  | String c rest =>
      checksum ((31 * acc + Z.of_nat (nat_of_ascii c)) mod 4294967296)%Z rest
  end.

(** The methods every object has on this host. *)
Definition object_methods : list string :=
  ["constructor"; "hasOwnProperty"; "isPrototypeOf"; "propertyIsEnumerable";
   "toLocaleString"; "toString"; "valueOf"].

(** What the prototypes give: a method of [object_methods] to every
    value, and its name to a function. *)
Definition prototype_member (v : jsval) (k : string) : jsval :=
  if existsb (String.eqb k) object_methods then JFun k
  else match v with
       | JFun f => if k =? "name" then JStr f else JUndefined
       | _ => JUndefined
       end.

Fixpoint percent_encode (s : string) : string :=
  match s with
  | EmptyString => EmptyString
  | String c rest =>
      if Ascii.eqb c " " then ("%20" ++ percent_encode rest)%string
      else String c (percent_encode rest)
  end.

(** A url on this host: the base has no path of its own, the fragment
    is cut off, and a space is written [%20]. *)
Definition url_target (input base : string) : string :=
  ("/" ++ percent_encode (hd "" (split "#" input)))%string.

Definition prototype_member_data (v : jsval) (k : string) :
  existsb (String.eqb k) data_names = true ->
  prototype_member v k = JUndefined.
Proof.
  intro Hk. unfold prototype_member.
  assert (Hin : In k data_names).
  { apply existsb_exists in Hk as (x & Hx & E).
    apply String.eqb_eq in E. now subst. }
  simpl in Hin.
  repeat (destruct Hin as [<-|Hin]; [now destruct v|]).
  destruct Hin.
Qed.

Definition host : Host := {|
  JSON_stringify := stringify;
  create_etag := fun body =>
    (quote ++ show_Z (Z.of_nat (String.length body)) ++ "-" ++
     show_Z (checksum 0 body) ++ quote)%string;
  StringToNumber := fun s => if decimal s then Some (digits_value 0 s) else None;
  ObjectToString := fun v =>
    match v with
    | JArr l => join "," (map show l)
    | JFun _ => show v
    | _ => "[object Object]"
    end;
  NumberToString := show_Z;
  inherited := prototype_member;
  URL_target := url_target;
  inherited_data := prototype_member_data
|}.

(** Modelled from the spec: Patch Authorization (the [Task] class is not
    part of the two files).  The extension bag [bot_client_data] may be
    set, and so may [current], [last] and [history], which the claim and
    the completion report of the protocol set; [id], [type], [etag] and
    the rest may not. *)
Definition settable (key : option string) (v : jsval) : bool :=
  match key with
  | Some k =>
      existsb (String.eqb k) ["bot_client_data"; "current"; "history"; "last"]
  | None => false
  end.

(** Modelled from the spec: the public subset is the record without the
    internal bookkeeping, here the stored [etag] and the [log]. *)
Definition visible (task : jsval) : jsval :=
  match task with
  | JObj o => JObj (obj_delete (obj_delete o "etag") "log")
  | _ => task
  end.

Definition task_class : TaskClass := {|
  canSet := settable;
  publicSubset := visible
|}.

(** A parser for evaluation: two versions separated by a space narrow,
    an output that begins with [!] makes the parser throw the rest,
    anything else does not narrow. *)
Definition parse (output : string) : ParseOutcome :=
  match output with
  | String "!" rest => ParseThrows rest
  | _ =>
      match split " " output with
      | [good; bad] => Narrowed good bad
      | _ => NotNarrowed
      end
  end.

(** Modelled from the spec: the Log Store, an append-only text buffer per
    job (the [Task] class and [buildLog] are not part of the two files);
    the texts are kept in the [log] member and shown one per line. *)
Definition append_log (task : jsval) (text : string) : jsval :=
  match task with
  | JObj o =>
      JObj (obj_set o "log"
              (match obj_get o "log" with
               | JArr l => JArr (l ++ [JStr text])
               | _ => JArr [JStr text]
               end))
  | _ => task
  end.

Definition render_log (task : jsval) : string :=
  match opt_get (H := host) task "log" with
  | JArr l => join (String (ascii_of_nat 10) EmptyString) (map show l)
  | _ => ""
  end.

Definition task_log : TaskLog := {|
  logText := append_log;
  buildLog := render_log
|}.

Definition parser : Parser := {| parseFiddleBisectOutput := parse |}.

End Sample.

(* ------------------------------------------------------------------ *)
(** ** Values the examples use *)

Module Fixtures.

(** The three jobs of the filter examples. *)
Definition job_A : jsval := JObj [("id", JStr "A"); ("platform", JStr "mac")].
Definition job_B : jsval := JObj [("id", JStr "B"); ("platform", JStr "win")].
Definition job_C : jsval := JObj [("id", JStr "C"); ("platform", JUndefined)].


Definition members1 : props :=
  [("id", JStr "j1");
   ("type", JStr "bisect");
   ("bisect_range", JArr [JStr "10.0.0"; JStr "11.2.0"]);
   ("gist", JStr "8c5fc0c6a5153d49b5a4a56d3ed9da8f");
   ("history", JArr []);
   ("bot_client_data", JObj []);
   ("log", JArr [])].

Definition task1 : jsval := JObj members1.

Definition task2 : jsval :=
  JObj [("id", JStr "j2");
        ("type", JStr "bisect");
        ("bisect_range", JArr [JStr "9.0.0"; JStr "12.0.0"]);
        ("gist", JStr "59444f92bffd5730944a0de6d85067fd");
        ("history", JArr []);
        ("bot_client_data", JObj []);
        ("log", JArr [])].

Definition broker1 : Server.Broker := [("j1", task1)].
Definition broker2 : Server.Broker := [("j1", task1); ("j2", task2)].

Definition worker (name : string) : Runner.t :=
  {| Runner.platform := "linux"; Runner.uuid := name;
     Runner.brokerUrl := "http://localhost:8088";
     Runner.childTimeoutMs := 300000;
     Runner.fiddleExec := "electron-fiddle";
     Runner.pollIntervalMs := 20000;
     Runner.etag := None; Runner.interval := false;
     Runner.jobId := None; Runner.timeBegun := None |}.

Definition serve1 :=
  serve (H := Sample.host) (T := Sample.task_class) (L := Sample.task_log).
Definition claim1 := Runner.claim (H := Sample.host).

(** Two workers fetch the unclaimed job, then each sends its claim. *)
Record race := {
  etag_A : res string;               (* the etag the first worker fetched *)
  etag_B : res string;
  claim_A : Runner.HttpRequest;
  claim_B : Runner.HttpRequest;
  answer_A : Runner.HttpResponse;    (* the answer to the first claim *)
  answer_B : Runner.HttpResponse;
  broker_after : Server.Broker
}.

Definition claim_race : race :=
  let '(b, got_A) :=
    serve1 broker1 (Runner.fetchJobAndEtag (worker "runner-A") "j1") in
  let '(b, got_B) :=
    serve1 b (Runner.fetchJobAndEtag (worker "runner-B") "j1") in
  let e_A := Runner.response_etag got_A in
  let e_B := Runner.response_etag got_B in
  let tag r := match r with Ok e => e | Throw _ => "" end in
  let '(_, req_A) :=
    claim1 (worker "runner-A") (Runner.res_body got_A) (tag e_A) 1000 in
  let '(_, req_B) :=
    claim1 (worker "runner-B") (Runner.res_body got_B) (tag e_B) 1001 in
  let '(b, ans_A) := serve1 b req_A in
  let '(b, ans_B) := serve1 b req_B in
  {| etag_A := e_A; etag_B := e_B; claim_A := req_A; claim_B := req_B;
     answer_A := ans_A; answer_B := ans_B; broker_after := b |}.

Definition stored (b : Server.Broker) (id : string) (names : list string)
  : jsval :=
  match Server.getTask b id with
  | Some task => fold_left (opt_get (H := Sample.host)) names task
  | None => JUndefined
  end.


Definition patch_request (id : string) (if_match : option string)
    (ops : list Operation) : Server.Request :=
  {| Server.url := ("/api/jobs/" ++ id)%string;
     Server.headers := match if_match with
                       | Some e => [("if-match", e)]
                       | None => []
                       end;
     Server.query := [];
     Server.body := ops |}.

Definition get_request (id : string) : Server.Request :=
  {| Server.url := ("/api/jobs/" ++ id)%string; Server.headers := [];
     Server.query := []; Server.body := [] |}.

Definition set_note (text : string) : Operation :=
  {| op := "replace"; path := "/bot_client_data"; from := "";
     value := JObj [("note", JStr text)] |}.

(** A move of the stored etag into the extension bag: the target is a
    member that may be set. *)
Definition move_etag : Operation :=
  {| op := "move"; path := "/bot_client_data/seen"; from := "/etag";
     value := JUndefined |}.

Definition set_id (id : string) : Operation :=
  {| op := "replace"; path := "/id"; from := ""; value := JStr id |}.

Definition getJob1 := Server.getJob (H := Sample.host) (T := Sample.task_class).
Definition patchJob1 := Server.patchJob (H := Sample.host) (T := Sample.task_class).
Definition body_etag (b : Server.Broker) (id : string) : option string :=
  option_map (fun task => snd (Server.getTaskBody (H := Sample.host)
                                 (T := Sample.task_class) task))
             (Server.getTask b id).

Definition response_header (r : Server.Response) (name : string) : option string :=
  Server.assoc (Server.resp_headers r) name.

(** A read, a patch that changes the visible body, then a patch
    conditioned on the etag of the read. *)
Record lost_update := {
  etag_read : option string;         (* the [ETag] of the read *)
  first_patch : Server.Response;
  etag_between : option string;      (* the etag of the body after the first patch *)
  second_patch : Server.Response;
  broker_between : Server.Broker;
  broker_end : Server.Broker
}.

Definition stale_patch : lost_update :=
  let '(b, got) := getJob1 broker1 (get_request "j1") in
  let e0 := response_header got "ETag" in
  let '(b1, first) := patchJob1 b (patch_request "j1" None [set_note "a"]) in
  let '(b2, second) := patchJob1 b1 (patch_request "j1" e0 [set_note "b"]) in
  {| etag_read := e0; first_patch := first; etag_between := body_etag b1 "j1";
     second_patch := second; broker_between := b1; broker_end := b2 |}.

(** A batch whose second operation is not allowed. *)
Definition mixed_batch : list Operation := [set_note "a"; set_id "other"].


(** A worker claims the job, another client patches the job, the worker
    reports. *)
Record report := {
  worker_etag : option string;        (* the worker's latest etag *)
  etag_at_report : option string;     (* the etag of the body at the report *)
  report_request : Runner.HttpRequest;
  report_answer : Runner.HttpResponse;
  broker_reported : Server.Broker
}.

Definition late_report : report :=
  let '(b, got) :=
    serve1 broker1 (Runner.fetchJobAndEtag (worker "runner-A") "j1") in
  let e0 := match Runner.response_etag got with Ok e => e | Throw _ => "" end in
  let '(r, req) := claim1 (worker "runner-A") (Runner.res_body got) e0 1000 in
  let '(b, ans) := serve1 b req in
  let r := match Runner.patchJob_done r ans with Ok r' => r' | Throw _ => r end in
  let '(b, _) := patchJob1 b (patch_request "j1" None [set_note "seen"]) in
  let rep := Runner.patchResult r 2000
               (Runner.onClose (P := Sample.parser) ["10.1.0 10.2.0"] (Some 0%Z)) in
  let '(b', ans') := serve1 b rep in
  {| worker_etag := Runner.etag r; etag_at_report := body_etag b "j1";
     report_request := rep; report_answer := ans'; broker_reported := b' |}.

Definition exchange1 :=
  exchange (H := Sample.host) (T := Sample.task_class) (L := Sample.task_log)
    (P := Sample.parser).
Definition step1 := Runner.step (H := Sample.host) (P := Sample.parser).

(** A worker polls and claims [j1]; while the child runs the interval
    fires, and the second invocation of [poll] claims [j2]. *)
Definition first_claim : Server.Broker * Runner.loop :=
  let w := (broker2, Runner.start (Runner.fresh (worker "runner-A"))) in
  let w := exchange1 w 0 0 in          (* the list *)
  let w := exchange1 w 0 1000 in       (* the job and its etag *)
  exchange1 w 0 1001.                  (* the claim; the child is spawned *)

Definition overlap : Server.Broker * Runner.loop :=
  let w := (fst first_claim, step1 (snd first_claim) Runner.Timer) in
  let w := exchange1 w 1 20000 in
  let w := exchange1 w 1 20001 in
  exchange1 w 1 20002.

(** The first child exits while the second runs. *)
Definition first_exit : Runner.loop :=
  step1 (snd overlap) (Runner.ChildClose 0 ["10.1.0 10.2.0"] (Some 0%Z) 30000).

(** Or the second child exits first: its report is answered, and the
    second invocation clears the bookkeeping; then the first child
    exits. *)
Definition second_done : Server.Broker * Runner.loop :=
  let w := (fst overlap,
            step1 (snd overlap)
              (Runner.ChildClose 1 ["9.1.0 9.2.0"] (Some 0%Z) 25000)) in
  exchange1 w 1 25001.

Definition late_exit : Runner.loop :=
  step1 (snd second_done)
    (Runner.ChildClose 0 ["10.1.0 10.2.0"] (Some 0%Z) 30000).

(** What the operations of a request say of [time_begun]. *)
Definition reported_times (req : option Runner.HttpRequest)
  : option (list (string * jsval)) :=
  option_map
    (fun req =>
       map (fun o => (path o, opt_get (H := Sample.host) (value o) "time_begun"))
           (Runner.json req))
    req.


Definition a_job (name : string) (plat : option string)
    (cur : option Interfaces.Current) (done : option Interfaces.Result)
  : Interfaces.Job :=
  {| Interfaces.id := name; Interfaces.type := "bisect";
     Interfaces.bisect_range := ("10.0.0", "11.2.0");
     Interfaces.gist := "8c5fc0c6a5153d49b5a4a56d3ed9da8f";
     Interfaces.platform := plat; Interfaces.current := cur;
     Interfaces.last := done; Interfaces.history := [];
     Interfaces.bot_client_data := [] |}.

Definition a_claim (by_runner : string) : Interfaces.Current :=
  {| Interfaces.runner := by_runner; Interfaces.time_begun := 1000 |}.

Definition a_result : Interfaces.Result :=
  {| Interfaces.result_runner := "runner-B";
     Interfaces.status := Interfaces.success;
     Interfaces.result_time_begun := 1000; Interfaces.time_ended := 2000;
     Interfaces.error := None;
     Interfaces.result_bisect_range := Some ("10.1.0", "10.2.0") |}.

Definition listed_jobs : list Interfaces.Job :=
  [ a_job "free" None None None;
    a_job "linux-only" (Some "linux") None None;
    a_job "mac-only" (Some "darwin") None None;
    a_job "claimed" None (Some (a_claim "runner-B")) None;
    a_job "done" None None (Some a_result) ].

Definition store_of (jobs : list Interfaces.Job) : Server.Broker :=
  map (fun j => (Interfaces.id j, Interfaces.job_json j)) jobs.

(** A job claimed by a runner whose uuid is the string [undefined]. *)
Definition claimed_by_undefined : Interfaces.Job :=
  a_job "odd" None (Some (a_claim "undefined")) None.

Definition getJobs1 := Server.getJobs (H := Sample.host) (T := Sample.task_class).

(** A worker that holds the claim of [j1]. *)
Definition holder : Runner.t :=
  Runner.with_claim (worker "runner-A") (Some "tag") (Some "j1") (Some 1000%Z).

(** A test of the job's type, which Patch Authorization would not let be
    set. *)
Definition test_type : Operation :=
  {| op := "test"; path := "/type"; from := ""; value := JStr "bisect" |}.

(** The worker has sent its claim of [j1]; the broker's answer to it. *)
Definition awaiting_claim : Server.Broker * Runner.loop :=
  let w := (broker2, Runner.start (Runner.fresh (worker "runner-A"))) in
  exchange1 (exchange1 w 0 0) 0 1000.

Definition claim_answer : Runner.HttpResponse :=
  match last_request (Runner.sent (snd awaiting_claim)) 0 with
  | Some req => snd (serve1 (fst awaiting_claim) req)
  | None => {| Runner.statusCode := 0; Runner.res_headers := [];
               Runner.res_body := JUndefined |}
  end.

(** The etag of the visible body of [j1] in the sample store. *)
Definition etag1 : string :=
  snd (Server.getTaskBody (H := Sample.host) (T := Sample.task_class) task1).

(** A log append for a url the expression of [putLog] matches. *)
Definition log_request (url text : string) : Server.LogRequest :=
  {| Server.log_url := url; Server.log_text := text |}.

End Fixtures.
Import Fixtures.
(* ------------------------------------------------------------------ *)
(** * Properties *)

(** ** Property reads *)

Section ReadFacts.
Context {H : Host}.

Lemma opt_get_own (o : props) (k : string) (x : jsval) :
  own o k = Some x -> opt_get (JObj o) k = x.
Proof. intro Ho. simpl. now rewrite Ho. Qed.

Lemma opt_get_absent (o : props) (k : string) :
  own o k = None -> existsb (String.eqb k) data_names = true ->
  opt_get (JObj o) k = JUndefined.
Proof. intros Ho Hk. simpl. rewrite Ho. now apply inherited_data. Qed.

(** A member name of the data model is read as a field: no prototype
    has it, and it is neither [length] nor an index. *)
Lemma data_name_is_field (k : string) :
  existsb (String.eqb k) data_names = true ->
  forall v, opt_get v k = Grammar.field v k.
Proof.
  intros Hk v.
  assert (Hin : In k data_names).
  { apply existsb_exists in Hk as (x & Hx & E).
    apply String.eqb_eq in E. now subst. }
  destruct v as [| | b | n | s | l | o | f]; try reflexivity;
    try (now apply inherited_data).
  - simpl in Hin.
    repeat (destruct Hin as [<-|Hin];
            [cbn; now apply inherited_data|]).
    destruct Hin.
  - simpl in Hin.
    repeat (destruct Hin as [<-|Hin];
            [cbn; now apply inherited_data|]).
    destruct Hin.
  - simpl. unfold obj_get. destruct (own o k); [reflexivity|].
    now apply inherited_data.
Qed.

Lemma walk_from_undefined (names : list string) :
  fold_left opt_get names JUndefined = JUndefined.
Proof. induction names as [|n names IH]; simpl; auto. Qed.

Lemma fields_from_undefined (names : list string) :
  fold_left Grammar.field names JUndefined = JUndefined.
Proof. induction names as [|n names IH]; simpl; auto. Qed.

(** Names that are read as fields resolve as the grammar says. *)
Lemma resolve_agrees (names : list string) :
  (forall k v, In k names -> opt_get v k = Grammar.field v k) ->
  forall c, fold_left opt_get names c = fold_left Grammar.field names c.
Proof.
  induction names as [|n names IH]; intros Hn c; [reflexivity|].
  simpl. rewrite (Hn n c (or_introl eq_refl)).
  apply IH. intros k v Hk. apply Hn. now right.
Qed.

End ReadFacts.

(** ** The filter engine *)

Section FilterFacts.
Context {H : Host}.

Lemma filter_twice (A : Type) (p q : A -> bool) (l : list A) :
  List.filter p (List.filter q l) = List.filter (fun x => q x && p x) l.
Proof.
  induction l as [|x l IH]; simpl; [reflexivity|].
  destruct (q x); simpl; [destruct (p x)|]; now rewrite IH.
Qed.

Lemma none_is_not_any (A : Type) (f : A -> bool) (l : list A) :
  negb (existsb f l) = forallb (fun a => negb (f a)) l.
Proof.
  induction l as [|x l IH]; simpl; [reflexivity|].
  now rewrite negb_orb, IH.
Qed.

(** One pass of the filter keeps the candidates that pass the key, read
    as the code reads it. *)
Lemma filter_entry_passes (l : list jsval) (e : string * string) :
  Server.filter_entry l e =
  List.filter
    (fun c => Grammar.passes_over_by opt_get (Grammar.alternatives (snd e))
                c (fst e)) l.
Proof.
  unfold Server.filter_entry. apply filter_ext. intro c.
  unfold Grammar.passes_over_by, Grammar.resolve_by, Grammar.names_of,
    Grammar.negated.
  set (negate := match last_char (fst e) with
                 | Some ch => Ascii.eqb ch "!"
                 | None => false
                 end).
  destruct (fold_left opt_get _ c); destruct negate;
    first [apply none_is_not_any | reflexivity].
Qed.

Lemma filter_passes (query : list (string * string)) :
  forall cands,
    Server.filter cands query =
    List.filter (fun c => Grammar.passes_by opt_get c query) cands.
Proof.
  unfold Server.filter.
  induction query as [|e query IH]; intro cands; simpl.
  - induction cands as [|c cands IHc]; simpl; [reflexivity|now rewrite <- IHc].
  - rewrite IH, filter_entry_passes, filter_twice. reflexivity.
Qed.

(** On a query whose names are read as fields, passing as the code has
    it is passing as the grammar has it. *)
Lemma passes_agrees (query : list (string * string)) (c : jsval) :
  (forall e k v, In e query -> In k (Grammar.names_of (fst e)) ->
                 opt_get v k = Grammar.field v k) ->
  Grammar.passes_by opt_get c query = Grammar.passes c query.
Proof.
  intro Hq. unfold Grammar.passes, Grammar.passes_by.
  induction query as [|e query IH]; [reflexivity|].
  simpl. rewrite IH by (intros e' k v He'; apply Hq; now right).
  f_equal.
  unfold Grammar.passes_over_by, Grammar.resolve_by.
  rewrite (resolve_agrees (Grammar.names_of (fst e))); [reflexivity|].
  intros k v Hk. apply (Hq e k v); [now left|exact Hk].
Qed.

Lemma resolve_through (c : jsval) (pre post : list string) :
  Grammar.resolve c (pre ++ post) =
  Grammar.resolve (fold_left Grammar.field pre c) post.
Proof.
  unfold Grammar.resolve, Grammar.resolve_by. now rewrite fold_left_app.
Qed.

Lemma resolve_missing (post : list string) :
  Grammar.resolve JUndefined post = JStr "undefined".
Proof.
  unfold Grammar.resolve, Grammar.resolve_by.
  now rewrite fields_from_undefined.
Qed.

End FilterFacts.

(** C7 (as amended).  For every candidate list, and every query whose
    key names are read as fields (no name of a key is a property the
    runtime supplies, such as an inherited method, or the length or a
    character of a string), the filter keeps exactly the candidates that
    pass every key (AND across keys), in their order; a key resolves its
    dotted path through nested fields, a missing intermediate or absent
    final field reading as the string [undefined]; without negation a
    candidate passes a key when the resolved value loosely equals ANY
    non-empty comma-separated alternative, with a trailing [!] only when
    it equals NONE of them.  The member names of the data model are such
    names.  Whatever the names, the code reads nothing from [undefined]
    or [null].  Over the jobs A, B, C: [platform=mac] gives A,
    [platform=mac,win] gives A and B, [platform!=mac] gives B and C,
    [platform=undefined] gives C.  The result is a selection from the
    input list, which is left as it is. *)
Theorem filter_follows_grammar {H : Host} :
  (forall cands query,
      (forall e k v, In e query -> In k (Grammar.names_of (fst e)) ->
                     opt_get v k = Grammar.field v k) ->
      Server.filter cands query =
      List.filter (fun c => Grammar.passes c query) cands) /\
  (forall c pre post,
      Grammar.resolve c (pre ++ post) =
      Grammar.resolve (fold_left Grammar.field pre c) post) /\
  (forall post, Grammar.resolve JUndefined post = JStr "undefined") /\
  (forall name post, Grammar.resolve JNull (name :: post) = JStr "undefined") /\
  (forall k, existsb (String.eqb k) data_names = true ->
             forall v, opt_get v k = Grammar.field v k) /\
  (forall names, fold_left opt_get names JUndefined = JUndefined) /\
  (forall name names, fold_left opt_get (name :: names) JNull = JUndefined) /\
  (let jobs := [job_A; job_B; job_C] in
   Server.filter jobs [("platform", "mac")] = [job_A] /\
   Server.filter jobs [("platform", "mac,win")] = [job_A; job_B] /\
   Server.filter jobs [("platform!", "mac")] = [job_B; job_C] /\
   Server.filter jobs [("platform", "undefined")] = [job_C]) /\
  (forall cands query c,
      (forall e k v, In e query -> In k (Grammar.names_of (fst e)) ->
                     opt_get v k = Grammar.field v k) ->
      (In c (Server.filter cands query) <->
       In c cands /\ Grammar.passes c query = true)).
Proof.
  split.
  { intros cands query Hq. rewrite filter_passes. apply filter_ext.
    intro c. now apply passes_agrees. }
  split; [intros; apply resolve_through|].
  split; [intros; apply resolve_missing|].
  split.
  { intros name post. unfold Grammar.resolve, Grammar.resolve_by. simpl.
    now rewrite fields_from_undefined. }
  split; [exact data_name_is_field|].
  split; [exact walk_from_undefined|].
  split; [intros name names; simpl; apply walk_from_undefined|].
  split; [repeat split|].
  intros cands query c Hq. rewrite filter_passes, filter_In.
  now rewrite (passes_agrees query c Hq).
Qed.

(** The theorem above at the three jobs: job A is in the input and passes
    [platform=mac], a name of the data model, so it is in the result. *)
Lemma filter_follows_grammar_witness :
  In job_A (Server.filter (H := Sample.host) [job_A; job_B; job_C]
              [("platform", "mac")]).
Proof.
  destruct (filter_follows_grammar (H := Sample.host))
    as (_ & _ & _ & _ & Hdata & _ & _ & _ & Hin).
  apply Hin.
  - intros e k v [<-|[]] [<-|[]]. now apply Hdata.
  - split; [now left|reflexivity].
Defined.

(** C7, as stated, fails on an empty alternative: the candidate's platform
    is the empty string, which equals the one comma-separated piece of the
    query value, and the filter drops the candidate; with the key negated
    the filter keeps it. *)
Lemma filter_drops_empty_alternative :
  let c := JObj [("platform", JStr "")] in
  Grammar.pieces "" = [""] /\
  Server.loose_eq (H := Sample.host) ""
    (fold_left (opt_get (H := Sample.host)) ["platform"] c) = true /\
  Grammar.passes_every_piece (H := Sample.host) c [("platform", "")] = true /\
  Server.filter (H := Sample.host) [c] [("platform", "")] = [] /\
  Grammar.passes_every_piece (H := Sample.host) c [("platform!", "")] = false /\
  Server.filter (H := Sample.host) [c] [("platform!", "")] = [c].
Proof. repeat split. Qed.

(** C7, as stated, also fails on a key that names a method every value
    inherits: no job has a field [toString], so the grammar reads
    [undefined] and [toString=undefined] passes every job, while the code
    reads the method and keeps none. *)
Lemma filter_reads_inherited_method :
  Grammar.resolve job_A ["toString"] = JStr "undefined" /\
  Grammar.passes (H := Sample.host) job_A [("toString", "undefined")] = true /\
  fold_left (opt_get (H := Sample.host)) ["toString"] job_A = JFun "toString" /\
  Server.filter (H := Sample.host) [job_A; job_B; job_C]
    [("toString", "undefined")] = [].
Proof. repeat split. Qed.

(** ** The poll query *)

Section PollQuery.
Context {H : Host}.
Import Interfaces.

Lemma split_at_separator (sep : ascii) (p q : string) :
  contains_char sep p = false ->
  split sep (p ++ String sep q) = p :: split sep q.
Proof.
  induction p as [|c p IH]; simpl; intro Hp.
  - now rewrite Ascii.eqb_refl.
  - apply orb_false_iff in Hp as [Hc Hp].
    rewrite Hc, (IH Hp). reflexivity.
Qed.

Lemma poll_alternatives (p : string) :
  contains_char "," p = false -> p <> "" ->
  Grammar.alternatives (p ++ ",undefined") = [p; "undefined"].
Proof.
  intros Hp Hne. unfold Grammar.alternatives, Grammar.pieces.
  rewrite (split_at_separator _ p "undefined" Hp). simpl.
  destruct (String.eqb_spec p ""); [contradiction|reflexivity].
Qed.

Lemma status_is_not_undefined (s : Status) :
  ("undefined" =? status_name s) = false.
Proof. destruct s; reflexivity. Qed.

Ltac read_fields :=
  cbn [fold_left]; rewrite !data_name_is_field by reflexivity.

Lemma job_platform (j : Job) :
  fold_left opt_get ["platform"] (job_json j) =
  match platform j with Some q => JStr q | None => JUndefined end.
Proof. read_fields. destruct j as [? ? ? ? [q|] [c|] [l|] ? ?]; reflexivity. Qed.

Lemma job_current_runner (j : Job) :
  fold_left opt_get ["current"; "runner"] (job_json j) =
  match current j with Some c => JStr (runner c) | None => JUndefined end.
Proof. read_fields. destruct j as [? ? ? ? [q|] [c|] [l|] ? ?]; reflexivity. Qed.

Lemma job_last_status (j : Job) :
  fold_left opt_get ["last"; "status"] (job_json j) =
  match last j with
  | Some l => JStr (status_name (status l))
  | None => JUndefined
  end.
Proof. read_fields. destruct j as [? ? ? ? [q|] [c|] [l|] ? ?]; reflexivity. Qed.

Lemma job_type (j : Job) :
  fold_left opt_get ["type"] (job_json j) = JStr (type j).
Proof. read_fields. destruct j as [? ? ? ? [q|] [c|] [l|] ? ?]; reflexivity. Qed.

Lemma job_id (j : Job) : opt_get (job_json j) "id" = JStr (id j).
Proof.
  rewrite data_name_is_field by reflexivity.
  destruct j as [? ? ? ? [q|] [c|] [l|] ? ?]; reflexivity. Qed.

Lemma poll_query_passes (r : Runner.t) (j : Job) :
  contains_char "," (Runner.platform r) = false ->
  Runner.platform r <> "" ->
  platform j <> Some "undefined" ->
  (forall c, current j = Some c -> runner c <> "undefined") ->
  Grammar.passes_by opt_get (job_json j)
    (Runner.searchParams (Runner.fetchAvailableJobs r))
  = available (Runner.platform r) j.
Proof.
  intros Hcomma Hne Hplat Hrun.
  unfold Grammar.passes_by, Runner.fetchAvailableJobs, Runner.searchParams.
  cbn [forallb fst snd].
  unfold Grammar.passes_over_by.
  rewrite (poll_alternatives _ Hcomma Hne).
  change (Grammar.alternatives "undefined") with ["undefined"].
  change (Grammar.alternatives "bisect") with ["bisect"].
  change (Grammar.negated "platform") with false.
  change (Grammar.negated "current.runner") with false.
  change (Grammar.negated "last.status") with false.
  change (Grammar.negated "type") with false.
  change (Grammar.names_of "platform") with ["platform"].
  change (Grammar.names_of "current.runner") with ["current"; "runner"].
  change (Grammar.names_of "last.status") with ["last"; "status"].
  change (Grammar.names_of "type") with ["type"].
  unfold available, Grammar.resolve_by.
  rewrite job_platform, job_current_runner, job_last_status, job_type.
  destruct (platform j) as [q|] eqn:Eq, (current j) as [c|] eqn:Ec,
           (last j) as [l|] eqn:El;
    cbn [existsb Server.loose_eq unset andb orb];
    rewrite ?status_is_not_undefined, ?orb_false_r, ?andb_false_r,
            ?andb_true_r, ?orb_true_r, ?andb_false_l, ?andb_true_l;
    try reflexivity.
  all: try (assert (Hc : ("undefined" =? runner c) = false)
              by (apply String.eqb_neq; intro E; apply (Hrun c eq_refl);
                  now symmetry);
            rewrite Hc).
  all: try (assert (Hq : ("undefined" =? q) = false)
              by (apply String.eqb_neq; intro E; apply Hplat; now rewrite E);
            rewrite Hq).
  all: rewrite ?orb_false_r, ?andb_false_r, ?andb_false_l; try reflexivity.
  all: rewrite (String.eqb_sym "bisect" (type j)); try reflexivity.
  now rewrite (String.eqb_sym q (Runner.platform r)).
Qed.

Lemma poll_query_selects (r : Runner.t) (jobs : list Job) :
  contains_char "," (Runner.platform r) = false ->
  Runner.platform r <> "" ->
  (forall j, In j jobs ->
             platform j <> Some "undefined" /\
             (forall c, current j = Some c -> runner c <> "undefined")) ->
  Server.filter (map job_json jobs)
    (Runner.searchParams (Runner.fetchAvailableJobs r)) =
  map job_json (List.filter (available (Runner.platform r)) jobs).
Proof.
  intros Hcomma Hne Hjobs. rewrite filter_passes.
  induction jobs as [|j jobs IH]; [reflexivity|].
  cbn [map List.filter].
  destruct (Hjobs j (or_introl eq_refl)) as [Hp Hc].
  rewrite (poll_query_passes r j Hcomma Hne Hp Hc).
  rewrite IH by (intros j' Hj'; apply Hjobs; now right).
  now destruct (available (Runner.platform r) j).
Qed.

End PollQuery.

(** ** Objects, arrays and the patch loop *)

Section PatchFacts.
Context {H : Host}.

Lemma own_obj_set_other (o : props) (k s : string) (v : jsval) :
  k <> s -> own (obj_set o k v) s = own o s.
Proof.
  intro Hks. induction o as [|[k' v'] o IH]; simpl.
  - destruct (String.eqb_spec k s); [contradiction|reflexivity].
  - destruct (String.eqb_spec k' k) as [->|Hk]; simpl.
    + destruct (String.eqb_spec k s); [contradiction|reflexivity].
    + now rewrite IH.
Qed.

Lemma own_obj_set_same (o : props) (k : string) (v : jsval) :
  own (obj_set o k v) k = Some v.
Proof.
  induction o as [|[k' v'] o IH]; simpl.
  - now rewrite String.eqb_refl.
  - destruct (k' =? k) eqn:E; simpl; rewrite E; [reflexivity|apply IH].
Qed.

Lemma own_obj_delete_other (o : props) (k s : string) :
  k <> s -> own (obj_delete o k) s = own o s.
Proof.
  intro Hks. induction o as [|[k' v'] o IH]; simpl; [reflexivity|].
  destruct (String.eqb_spec k' k) as [->|Hk]; simpl.
  - destruct (String.eqb_spec k s); [contradiction|reflexivity].
  - now rewrite IH.
Qed.

Lemma obj_set_own (o : props) (k : string) (v : jsval) :
  own o k = Some v -> obj_set o k v = o.
Proof.
  induction o as [|[k' v'] o IH]; simpl; [discriminate|].
  destruct (String.eqb_spec k' k) as [->|Hk]; intro Hv.
  - now inversion Hv.
  - now rewrite IH.
Qed.

Lemma arr_set_nth (l : list jsval) (i : nat) :
  i < length l -> arr_set l (Z.of_nat i) (nth i l JUndefined) = l.
Proof.
  intro Hi. unfold arr_set.
  destruct (Z.ltb_spec (Z.of_nat i) 0) as [Hneg|_]; [lia|].
  rewrite Nat2Z.id.
  destruct (Nat.ltb_spec i (length l)) as [_|Hge]; [|lia].
  revert i Hi. induction l as [|x l IH]; intros [|i] Hi; simpl in *;
    try lia; [reflexivity|].
  f_equal. apply IH; lia.
Qed.

Lemma put_sub (p : list rkey) :
  forall doc, put doc p (sub doc p) = doc.
Proof.
  induction p as [|[s|i] p IH]; intro doc; simpl; [reflexivity| |].
  - destruct doc as [| | | | |items|o|f]; try reflexivity.
    destruct (own o s) as [child|] eqn:Hown; [|reflexivity].
    unfold obj_get. rewrite Hown, IH. now rewrite (obj_set_own _ _ _ Hown).
  - destruct doc as [| | | | |items|o|f]; try reflexivity.
    destruct (Nat.ltb_spec i (length items)); [|reflexivity].
    rewrite IH. now rewrite arr_set_nth.
Qed.

Lemma store_current (root : jsval) (c : cursor) :
  store_doc root c (current_doc root c) = root.
Proof. destruct c; simpl; [apply put_sub|reflexivity]. Qed.

Variable validator : Operation -> bool.

Lemma applyOperation_rejected (doc : jsval) (o : Operation) :
  validator o = true ->
  applyOperation validator doc o = Thrown "OPERATION_OP_INVALID" doc.
Proof. intro Hv. unfold applyOperation. now rewrite Hv. Qed.

(** A batch with a rejected operation ends in an exception. *)
Lemma applyPatch_from_throws (patch : list Operation) :
  existsb validator patch = true ->
  forall root c, exists e, snd (applyPatch_from validator root c patch) = Some e.
Proof.
  induction patch as [|o patch IH]; simpl; [discriminate|].
  intros Hex root c.
  destruct (validator o) eqn:Hv.
  - rewrite (applyOperation_rejected _ _ Hv). simpl. eauto.
  - simpl in Hex.
    destruct (applyOperation validator (current_doc root c) o) as [d|[v|q]|e d];
      simpl; eauto.
Qed.

(** The operations before a point, when they all apply, leave a document
    and a cursor from which the loop goes on. *)
Lemma applyPatch_from_app (pre : list Operation) :
  forall root c root1,
    applyPatch_from validator root c pre = (root1, None) ->
    exists c1, forall rest,
      applyPatch_from validator root c (pre ++ rest) =
      applyPatch_from validator root1 c1 rest.
Proof.
  induction pre as [|o pre IH]; simpl; intros root c root1 Hpre.
  - inversion Hpre; subst. now exists c.
  - destruct (applyOperation validator (current_doc root c) o) as [d|[v|q]|e d];
      try discriminate; apply (IH _ _ _ Hpre).
Qed.

(** A rejected operation stops the batch where the operations before it
    left the document. *)
Lemma applyPatch_stops_at_rejected (pre post : list Operation) (bad : Operation)
    (root root1 : jsval) :
  validator bad = true ->
  applyPatch validator root pre = (root1, None) ->
  applyPatch validator root (pre ++ bad :: post) =
  (root1, Some "OPERATION_OP_INVALID").
Proof.
  intros Hbad Hpre. unfold applyPatch in *.
  destruct (applyPatch_from_app _ _ _ _ Hpre) as [c1 Happ].
  rewrite Happ. simpl.
  rewrite (applyOperation_rejected _ _ Hbad). now rewrite store_current.
Qed.

End PatchFacts.

(** ** The server's handlers *)

Section ServerFacts.
Context {H : Host} {T : TaskClass}.

Lemma setTask_same (b : Server.Broker) (id : string) (task : jsval) :
  Server.getTask b id = Some task -> Server.setTask b id task = b.
Proof.
  induction b as [|[k t] b IH]; simpl; [reflexivity|].
  destruct (k =? id); intro Hg; [now inversion Hg|now rewrite IH].
Qed.

(** The patch of a runner carries no [If-Match] header. *)
Lemma runner_patch_no_if_match (r : Runner.t) (patches : list Operation) :
  Server.header (deliver (Runner.patchJob r patches)) "If-Match" = None.
Proof. destruct r as [? ? ? ? ? ? [e|] ? ? ?]; reflexivity. Qed.

Lemma no_if_match_no_412 (b : Server.Broker) (req : Server.Request) :
  Server.header req "If-Match" = None ->
  Server.status (snd (Server.patchJob b req)) <> 412%Z.
Proof.
  intro Hh. unfold Server.patchJob. rewrite Hh.
  destruct (Server.getTask b (Server.basename (Server.url req))) as [task|];
    [|simpl; discriminate].
  simpl.
  destruct (applyPatch Server.rejects task (Server.body req)) as [task' [e|]];
    [simpl; discriminate|].
  destruct (Server.getTaskBody task'). simpl. discriminate.
Qed.

End ServerFacts.
(** ** What a patch leaves alone *)

Section Frame.
Context {H : Host}.

Ltac split_ifs H :=
  repeat match type of H with
         | context [if ?c then _ else _] => destruct c
         end.

Lemma etag_of_array (l : list jsval) : opt_get (JArr l) "etag" = JUndefined.
Proof. now rewrite data_name_is_field. Qed.

(** The [etag] member a value holds. *)
Lemma walk_frame_field (validate : bool) (a : action) (prev k : string)
    (ks : list string) (doc doc' : jsval) :
  walk validate a prev (k :: ks) doc = Ok doc' ->
  unescapePathComponent k <> "etag" ->
  Grammar.field doc' "etag" = Grammar.field doc "etag".
Proof.
  intros Hw Hk. simpl in Hw.
  destruct (banned prev (unescapePathComponent k)); [discriminate|].
  destruct doc as [| | b | n | s | l | o | f]; try discriminate.
  - destruct ks; [|destruct (walk _ _ _ _ _); simpl in Hw; try discriminate;
                   now inversion Hw].
    destruct a; simpl in Hw; split_ifs Hw; try discriminate; now inversion Hw.
  - destruct ks; [|destruct (walk _ _ _ _ _); simpl in Hw; try discriminate;
                   now inversion Hw].
    destruct a; simpl in Hw; split_ifs Hw; try discriminate; now inversion Hw.
  - destruct ks; [|destruct (walk _ _ _ _ _); simpl in Hw; try discriminate;
                   now inversion Hw].
    destruct a; simpl in Hw; split_ifs Hw; try discriminate; now inversion Hw.
  - destruct (array_key validate l (unescapePathComponent k)) as [ak|e];
      simpl in Hw; [|discriminate].
    assert (Harr : exists l', doc' = JArr l').
    { destruct ks.
      - destruct a, ak; simpl in Hw;
          split_ifs Hw;
          try discriminate; inversion Hw; eauto.
      - destruct (validate && negb (is_object (read_arr l ak))); [discriminate|].
        destruct (walk _ _ _ _ _); simpl in Hw; [|discriminate].
        destruct ak; [destruct (_ && is_object _)|]; inversion Hw; eauto. }
    destruct Harr as [l' ->]. reflexivity.
  - assert (Hobj : exists o', doc' = JObj o' /\
                              own o' "etag" = own o "etag").
    { destruct ks.
      - destruct a; simpl in Hw;
          split_ifs Hw;
          try discriminate; inversion Hw; eexists; split; try reflexivity.
        + now apply own_obj_set_other.
        + now apply own_obj_delete_other.
        + now apply own_obj_set_other.
      - destruct (validate && negb (is_object _)); [discriminate|].
        destruct (walk _ _ _ _ _); simpl in Hw; [|discriminate].
        destruct (own o (unescapePathComponent k)); [destruct (is_object _)|];
          inversion Hw; eexists; split; try reflexivity.
        now apply own_obj_set_other. }
    destruct Hobj as (o' & -> & Hown). simpl. unfold obj_get. now rewrite Hown.
  - destruct ks; [|destruct (walk _ _ _ _ _); simpl in Hw; try discriminate;
                   now inversion Hw].
    destruct a; simpl in Hw; split_ifs Hw; try discriminate; now inversion Hw.
Qed.

Lemma walk_frame (validate : bool) (a : action) (prev k : string)
    (ks : list string) (doc doc' : jsval) :
  walk validate a prev (k :: ks) doc = Ok doc' ->
  unescapePathComponent k <> "etag" ->
  opt_get doc' "etag" = opt_get doc "etag".
Proof.
  intros Hw Hk. rewrite !(data_name_is_field "etag") by reflexivity.
  eapply walk_frame_field; eassumption.
Qed.

Lemma walk_pointer_frame (validate : bool) (a : action) (ptr : string)
    (doc doc' : jsval) :
  walk_pointer validate a ptr doc = Ok doc' ->
  top_key ptr <> "etag" ->
  opt_get doc' "etag" = opt_get doc "etag".
Proof.
  unfold walk_pointer, top_key.
  destruct (split "/" ptr) as [|first [|k ks]]; intros Hw Hk.
  - destruct doc; try discriminate; (eapply walk_frame; [exact Hw|discriminate]).
  - destruct doc; try discriminate; (eapply walk_frame; [exact Hw|discriminate]).
  - eapply walk_frame; [exact Hw|exact Hk].
Qed.

Lemma locate_head (prev k : string) (ks : list string) (doc v : jsval)
    (q : list rkey) :
  locate prev (k :: ks) doc = Ok (Some q, v) ->
  unescapePathComponent k <> "etag" ->
  cursor_ok (Alias q).
Proof.
  intros Hl Hk. simpl in Hl.
  destruct (banned prev (unescapePathComponent k)); [discriminate|].
  assert (Hstep : forall step : option rkey * jsval,
             (match fst step with
              | Some (RProp s) => s <> "etag"
              | _ => True
              end) ->
             match ks with
             | [] => Ok (option_map (fun k => [k]) (fst step), snd step)
             | _ :: _ =>
                 found <- locate k ks (snd step) ;;
                 Ok (match fst step, fst found with
                     | Some k, Some p => Some (k :: p)
                     | _, _ => None
                     end, snd found)
             end = Ok (Some q, v) -> cursor_ok (Alias q)).
  { intros [[rk|] child] Hrk Hq; simpl in *.
    - destruct ks.
      + inversion Hq; subst. destruct rk; simpl; auto.
      + destruct (locate _ _ _) as [[[q'|] v']|]; simpl in Hq; try discriminate.
        inversion Hq; subst. destruct rk; simpl; auto.
    - destruct ks; [discriminate|].
      destruct (locate _ _ _) as [[q' v']|]; simpl in Hq; discriminate. }
  destruct doc as [| | b | n | s | l | o | f]; simpl in Hl; try discriminate;
    try (apply (Hstep (None, _) I Hl)).
  - destruct (array_key false l (unescapePathComponent k)) as [[i|s]|e];
      simpl in Hl; try discriminate.
    + destruct ((0 <=? i)%Z && (i <? Z.of_nat (length l))%Z);
        [apply (Hstep (Some (RIdx _), _) I Hl)|apply (Hstep (None, _) I Hl)].
    + apply (Hstep (None, _) I Hl).
  - destruct (own o (unescapePathComponent k)) as [x|].
    + apply (Hstep (Some (RProp (unescapePathComponent k)), x) Hk Hl).
    + apply (Hstep (None, _) I Hl).
Qed.

Lemma locate_pointer_head (ptr : string) (doc v : jsval) (q : list rkey) :
  locate_pointer ptr doc = Ok (Some q, v) ->
  top_key ptr <> "etag" ->
  cursor_ok (Alias q).
Proof.
  unfold locate_pointer, top_key.
  destruct (ptr =? ""); [intro Hq; inversion Hq; simpl; auto|].
  destruct (split "/" ptr) as [|first [|k ks]]; intros Hl Hk.
  - destruct doc; try discriminate; (eapply locate_head; [exact Hl|discriminate]).
  - destruct doc; try discriminate; (eapply locate_head; [exact Hl|discriminate]).
  - eapply locate_head; [exact Hl|exact Hk].
Qed.

Variable validator : Operation -> bool.

(** An operation that does not name [etag] leaves that member of the
    document it is applied to, and rebinds to no alias of it. *)
Lemma applyOperation_frame (doc : jsval) (o : Operation) :
  names_member "etag" o = false ->
  match applyOperation validator doc o with
  | Done d | Thrown _ d => opt_get d "etag" = opt_get doc "etag"
  | Rebound (Inside q) => cursor_ok (Alias q)
  | Rebound (Fresh _) => True
  end.
Proof.
  unfold names_member. intro Hn. apply orb_false_iff in Hn as [Hp Hf].
  apply String.eqb_neq in Hp. apply String.eqb_neq in Hf.
  unfold applyOperation.
  destruct (validator o); [reflexivity|].
  destruct (path o =? "").
  { repeat match goal with
           | |- context [if ?c then _ else _] => destruct c
           end; auto.
    unfold rebind_to.
    destruct (locate_pointer (from o) doc) as [[[q|] v]|] eqn:Hl;
      [|exact I|reflexivity].
    destruct (is_object v); [|exact I].
    eapply locate_pointer_head; [exact Hl|exact Hf]. }
  destruct (walk_pointer true (action_of o) (path o) doc) as [doc'|] eqn:Hw;
    [|reflexivity].
  destruct (op o =? "move").
  { unfold move.
    destruct (getValueByPointer doc (path o)); [|reflexivity].
    destruct (from o =? "").
    - destruct (walk_pointer false _ (path o) doc) eqn:Ha; simpl; [|reflexivity].
      eapply walk_pointer_frame; [exact Ha|exact Hp].
    - destruct (walk_pointer false ActRemove (from o) doc) as [doc1|] eqn:Hr;
        [|reflexivity].
      pose proof (walk_pointer_frame _ _ _ _ _ Hr Hf) as H1.
      destruct (walk_pointer false _ (path o) doc1) eqn:Ha; simpl; [|exact H1].
      rewrite <- H1. eapply walk_pointer_frame; [exact Ha|exact Hp]. }
  destruct (op o =? "copy").
  { unfold copy.
    destruct (getValueByPointer doc (from o)); [|reflexivity].
    destruct (walk_pointer false _ (path o) doc) eqn:Ha; simpl; [|reflexivity].
    eapply walk_pointer_frame; [exact Ha|exact Hp]. }
  eapply walk_pointer_frame; [exact Hw|exact Hp].
Qed.

Lemma store_frame (root : jsval) (c : cursor) (d : jsval) :
  cursor_ok c ->
  opt_get d "etag" = opt_get (current_doc root c) "etag" ->
  opt_get (store_doc root c d) "etag" = opt_get root "etag".
Proof.
  destruct c as [[|[s|i] p]|v]; simpl; intros Hc Hd; auto.
  - destruct root as [| | | | |l|o|f]; try reflexivity.
    destruct (own o s); [|reflexivity].
    rewrite !(data_name_is_field "etag") by reflexivity.
    simpl. unfold obj_get. now rewrite own_obj_set_other.
  - destruct root as [| | | | |l|o|f]; try reflexivity.
    destruct (i <? length l)%nat; [|reflexivity].
    now rewrite !etag_of_array.
Qed.

Lemma applyPatch_from_frame (patch : list Operation) :
  (forall o, In o patch -> names_member "etag" o = false) ->
  forall root c,
    cursor_ok c ->
    opt_get (fst (applyPatch_from validator root c patch)) "etag" =
    opt_get root "etag".
Proof.
  induction patch as [|o patch IH]; intros Hn root c Hc; [reflexivity|].
  pose proof (applyOperation_frame (current_doc root c) o
                (Hn o (or_introl eq_refl))) as Hop.
  assert (Hrest : forall o', In o' patch -> names_member "etag" o' = false)
    by (intros o' Ho'; apply Hn; now right).
  simpl.
  destruct (applyOperation validator (current_doc root c) o) as [d|[v|q]|e d].
  - rewrite IH; auto; [now apply store_frame|now destruct c].
  - now rewrite IH.
  - rewrite IH; auto.
    destruct c as [[|k p]|v]; simpl; auto.
  - simpl. now apply store_frame.
Qed.

End Frame.

(** ** The stored etag and the precondition *)

Section ServerClaims.
Context {H : Host} {T : TaskClass}.

Lemma getTask_setTask (b : Server.Broker) (id id' : string) (task : jsval) :
  Server.getTask (Server.setTask b id task) id' =
  if id' =? id
  then match Server.getTask b id with Some _ => Some task | None => None end
  else Server.getTask b id'.
Proof.
  induction b as [|[k t] b IH]; simpl.
  - now destruct (id' =? id).
  - destruct (String.eqb_spec k id) as [->|Hk]; simpl.
    + destruct (String.eqb_spec id id') as [->|Hi].
      * now rewrite String.eqb_refl.
      * destruct (String.eqb_spec id' id); [congruence|reflexivity].
    + destruct (String.eqb_spec k id') as [->|Hk'].
      * destruct (String.eqb_spec id' id); [congruence|reflexivity].
      * apply IH.
Qed.

Lemma patchJob_keeps_stored_etag (b : Server.Broker) (req : Server.Request)
    (id : string) :
  (forall o, In o (Server.body req) -> names_member "etag" o = false) ->
  Server.stored_etag (fst (Server.patchJob b req)) id = Server.stored_etag b id.
Proof.
  intro Hn. unfold Server.patchJob.
  set (target := Server.basename (Server.url req)).
  destruct (Server.getTask b target) as [task|] eqn:Hg; [|reflexivity].
  destruct (Server.precondition_fails _ task); [reflexivity|].
  pose proof (applyPatch_from_frame Server.rejects (Server.body req) Hn
                task (Alias []) I) as Hf.
  unfold applyPatch.
  destruct (applyPatch_from Server.rejects task (Alias []) (Server.body req))
    as [task' err].
  simpl in Hf.
  assert (Hs : Server.stored_etag (Server.setTask b target task') id =
               Server.stored_etag b id).
  { unfold Server.stored_etag. rewrite getTask_setTask, Hg.
    destruct (String.eqb_spec id target) as [->|]; [|reflexivity].
    rewrite Hg. simpl. now rewrite Hf. }
  destruct err; [exact Hs|].
  destruct (Server.getTaskBody task'). exact Hs.
Qed.

(** A precondition that differs from the stored etag: 412, and the store
    is as it was. *)
Lemma stored_etag_mismatch_is_rejected (b : Server.Broker)
    (req : Server.Request) (task : jsval) :
  Server.getTask b (Server.basename (Server.url req)) = Some task ->
  Server.precondition_fails (Server.header req "If-Match") task = true ->
  fst (Server.patchJob b req) = b /\
  Server.status (snd (Server.patchJob b req)) = 412%Z.
Proof.
  intros Hg Hpre. unfold Server.patchJob. rewrite Hg, Hpre. now split.
Qed.

(** C9 (as amended).  A successful GET of a known job stores, in the
    job's [etag] member, the etag of the freshly serialized visible body,
    and answers with that etag.  A PATCH stores no etag of its own: one
    whose operations do not themselves name the [etag] member (as [path]
    or as [from]) and do not move the document into itself leaves the
    stored etag of every job as it was, whatever its outcome, and when a
    PATCH succeeds it answers with the etag of the new body.  The list
    leaves the store as it is. *)
Theorem etag_is_stored_by_get_only :
  (forall b req o,
      let id := Server.basename (Server.url req) in
      let etag := create_etag (JSON_stringify (publicSubset (JObj o))) in
      Server.getTask b id = Some (JObj o) ->
      Server.stored_etag (fst (Server.getJob b req)) id = Some (JStr etag) /\
      Server.status (snd (Server.getJob b req)) = 200%Z /\
      Server.assoc (Server.resp_headers (snd (Server.getJob b req))) "ETag"
      = Some etag) /\
  (forall b req id,
      (forall o, In o (Server.body req) ->
                 names_member "etag" o = false /\ moves_root o = false) ->
      Server.stored_etag (fst (Server.patchJob b req)) id
      = Server.stored_etag b id) /\
  (forall b req,
      Server.status (snd (Server.patchJob b req)) = 200%Z ->
      exists task,
        Server.getTask (fst (Server.patchJob b req))
                       (Server.basename (Server.url req)) = Some task /\
        Server.resp_headers (snd (Server.patchJob b req)) =
        [("ETag", create_etag (JSON_stringify (publicSubset task)))]) /\
  (forall b req, fst (Server.getJobs b req) = b).
Proof.
  split; [|split; [|split]].
  - intros b req o id etag Hg. unfold Server.getJob. fold id. rewrite Hg.
    unfold Server.getTaskBody. cbn [fst snd Server.status Server.resp_headers].
    repeat split.
    unfold Server.stored_etag. rewrite getTask_setTask, String.eqb_refl, Hg.
    simpl. now rewrite own_obj_set_same.
  - intros b req id Hn. apply patchJob_keeps_stored_etag.
    intros o Ho. now apply Hn.
  - intros b req. unfold Server.patchJob.
    destruct (Server.getTask b _) as [task|] eqn:Hg; [|simpl; discriminate].
    destruct (Server.precondition_fails _ task); [simpl; discriminate|].
    destruct (applyPatch Server.rejects task (Server.body req))
      as [task' [e|]]; [simpl; discriminate|].
    unfold Server.getTaskBody. simpl. intros _. exists task'. split; [|reflexivity].
    now rewrite getTask_setTask, String.eqb_refl, Hg.
  - reflexivity.
Qed.

(** C3 (as amended).  On a known job whose precondition, if any, holds, a
    batch with a disallowed operation is answered with 400.  The
    disallowed operation and the operations after it are not applied; the
    operations before it are applied one by one in place, so a batch
    whose operations before the first disallowed one all apply leaves the
    job as those operations made it, and a batch that begins with the
    disallowed operation leaves the job exactly as it was. *)
Theorem disallowed_operation_rejects_batch (b : Server.Broker)
    (req : Server.Request) (task : jsval) :
  Server.getTask b (Server.basename (Server.url req)) = Some task ->
  Server.precondition_fails (Server.header req "If-Match") task = false ->
  (existsb Server.rejects (Server.body req) = true ->
   Server.status (snd (Server.patchJob b req)) = 400%Z) /\
  (forall pre bad post task1,
      Server.body req = pre ++ bad :: post ->
      Server.rejects bad = true ->
      applyPatch Server.rejects task pre = (task1, None) ->
      Server.patchJob b req =
      (Server.setTask b (Server.basename (Server.url req)) task1,
       {| Server.status := 400; Server.resp_headers := [];
          Server.resp_body := Server.Failure "OPERATION_OP_INVALID" |})) /\
  (forall bad post,
      Server.body req = bad :: post ->
      Server.rejects bad = true ->
      fst (Server.patchJob b req) = b).
Proof.
  intros Hg Hpre.
  assert (Hstop : forall pre bad post task1,
             Server.body req = pre ++ bad :: post ->
             Server.rejects bad = true ->
             applyPatch Server.rejects task pre = (task1, None) ->
             Server.patchJob b req =
             (Server.setTask b (Server.basename (Server.url req)) task1,
              {| Server.status := 400; Server.resp_headers := [];
                 Server.resp_body := Server.Failure "OPERATION_OP_INVALID" |})).
  { intros pre bad post task1 Hbody Hbad Hdone.
    unfold Server.patchJob. rewrite Hg, Hpre, Hbody.
    now rewrite (applyPatch_stops_at_rejected _ pre post bad _ _ Hbad Hdone). }
  split; [|split; [exact Hstop|]].
  - intro Hex. unfold Server.patchJob. rewrite Hg, Hpre.
    destruct (applyPatch_from_throws Server.rejects _ Hex task (Alias []))
      as [e He].
    unfold applyPatch.
    destruct (applyPatch_from Server.rejects task (Alias []) (Server.body req))
      as [task' err].
    simpl in He. subst err. reflexivity.
  - intros bad post Hbody Hbad.
    rewrite (Hstop [] bad post task Hbody Hbad eq_refl). simpl.
    now apply setTask_same.
Qed.

End ServerClaims.
(** ** The runner's results *)

Section RunnerClaims.
Context {H : Host} {P : Parser}.

Lemma own_obj_assign_other (source target : props) (k : string) :
  own source k = None ->
  own (obj_assign target source) k = own target k.
Proof.
  unfold obj_assign. revert target.
  induction source as [|[k' v'] source IH]; intros target Hk; [reflexivity|].
  simpl in *. destruct (String.eqb_spec k' k) as [->|Hne]; [discriminate|].
  rewrite (IH _ Hk). now apply own_obj_set_other.
Qed.

Lemma classified_keeps_defaults (e : Runner.ending) :
  own (Runner.classified e) "runner" = None /\
  own (Runner.classified e) "time_begun" = None /\
  own (Runner.classified e) "time_ended" = None.
Proof.
  destruct e as [stdout exitCode|err]; simpl; [|auto].
  unfold Runner.onClose.
  destruct (parseFiddleBisectOutput _); simpl; auto.
Qed.

(** The step of the loop at the end of a child: the invocation sends
    the report, and nothing else. *)
Lemma child_end_is_reported (l : Runner.loop) (p : nat) (e : Runner.ending)
    (now : Z) :
  Runner.waiting (Runner.polls l) p = Some Runner.ChildRunning ->
  Runner.sent (Runner.step l (Runner.ended p e now)) =
  Runner.sent l ++
  [Runner.Send p (Runner.patchResult (Runner.self l) now (Runner.classified e))].
Proof.
  intro Hw. destruct e as [stdout exitCode|err]; simpl; now rewrite Hw.
Qed.

Lemma closed_result (r : Runner.t) (now : Z) (stdout : list string)
    (exitCode : option Z) :
  let reported := Runner.result_of r now (Runner.onClose stdout exitCode) in
  match parseFiddleBisectOutput (join "" stdout) with
  | Narrowed goodVersion badVersion =>
      opt_get reported "status" = JStr "success" /\
      opt_get reported "bisect_range" = JArr [JStr goodVersion; JStr badVersion]
  | NotNarrowed =>
      opt_get reported "status" =
      JStr (match exitCode with
            | Some 1%Z => "test_error"
            | _ => "system_error"
            end)
  | ParseThrows text =>
      opt_get reported "status" = JStr "system_error" /\
      opt_get reported "error" = JStr text
  end.
Proof.
  unfold Runner.result_of, Runner.onClose.
  destruct (parseFiddleBisectOutput (join "" stdout)) as [g b| |text];
    repeat split; try reflexivity.
  destruct exitCode as [code|]; [|reflexivity].
  destruct (Z.eqb_spec code 1) as [->|Hne]; [reflexivity|].
  destruct code as [|[| |]|]; try reflexivity. contradiction.
Qed.

(** C5.  When the child of an invocation closes, the invocation sends one
    request, a PATCH whose operations add a Result to [history], replace
    [last] by the same Result and remove [current].  If the parser
    returns a narrowed range that Result has status [success] and the
    pair as [bisect_range]; if the output does not narrow, the status is
    [test_error] when the exit code is 1 and [system_error] for any
    other exit code (none included); if the parser throws, the status is
    [system_error] and [error] is the exception text.  At the [error]
    event of the child the invocation sends such a request with status
    [system_error] and the text of the error. *)
Theorem exit_is_classified (l : Runner.loop) (p : nat) (stdout : list string)
    (exitCode : option Z) (err : string) (now : Z) :
  Runner.waiting (Runner.polls l) p = Some Runner.ChildRunning ->
  (exists req reported,
      Runner.sent (Runner.step l (Runner.ChildClose p stdout exitCode now)) =
      Runner.sent l ++ [Runner.Send p req] /\
      Runner.method req = "PATCH" /\
      map (fun o => (op o, path o, value o)) (Runner.json req) =
      [("add", "/history/-", reported);
       ("replace", "/last", reported);
       ("remove", "/current", JUndefined)] /\
      match parseFiddleBisectOutput (join "" stdout) with
      | Narrowed goodVersion badVersion =>
          opt_get reported "status" = JStr "success" /\
          opt_get reported "bisect_range"
          = JArr [JStr goodVersion; JStr badVersion]
      | NotNarrowed =>
          opt_get reported "status" =
          JStr (match exitCode with
                | Some 1%Z => "test_error"
                | _ => "system_error"
                end)
      | ParseThrows text =>
          opt_get reported "status" = JStr "system_error" /\
          opt_get reported "error" = JStr text
      end) /\
  (exists req reported,
      Runner.sent (Runner.step l (Runner.ChildError p err now)) =
      Runner.sent l ++ [Runner.Send p req] /\
      Runner.method req = "PATCH" /\
      map (fun o => (op o, path o, value o)) (Runner.json req) =
      [("add", "/history/-", reported);
       ("replace", "/last", reported);
       ("remove", "/current", JUndefined)] /\
      opt_get reported "status" = JStr "system_error" /\
      opt_get reported "error" = JStr err).
Proof.
  intro Hw. split.
  - exists (Runner.patchResult (Runner.self l) now
              (Runner.onClose stdout exitCode)),
           (Runner.result_of (Runner.self l) now
              (Runner.onClose stdout exitCode)).
    split; [exact (child_end_is_reported l p (Runner.Closed stdout exitCode)
                     now Hw)|].
    split; [reflexivity|]. split; [reflexivity|].
    apply closed_result.
  - exists (Runner.patchResult (Runner.self l) now (Runner.onError err)),
           (Runner.result_of (Runner.self l) now (Runner.onError err)).
    split; [exact (child_end_is_reported l p (Runner.Errored err) now Hw)|].
    repeat split.
Qed.

(** What the defaults of [patchResult] put in a Result the handlers of
    the child hand over. *)
Lemma result_defaults (r : Runner.t) (now : Z) (e : Runner.ending) :
  let result := Runner.result_of r now (Runner.classified e) in
  opt_get result "runner" = JStr (Runner.uuid r) /\
  opt_get result "time_begun" = Runner.js_time (Runner.timeBegun r) /\
  opt_get result "time_ended" = JNum now /\
  (exists s, opt_get result "status" = JStr s /\
             (s = "success" \/ s = "test_error" \/ s = "system_error")).
Proof.
  intro result.
  destruct (classified_keeps_defaults e) as (Hr & Hb & He).
  assert (Hstatus : exists s, opt_get result "status" = JStr s /\
                              (s = "success" \/ s = "test_error" \/
                               s = "system_error")).
  { unfold result, Runner.result_of.
    destruct e as [stdout exitCode|err]; simpl.
    - unfold Runner.onClose.
      destruct (parseFiddleBisectOutput _);
        [| destruct exitCode as [code|]; [destruct (code =? 1)%Z|] |];
        eexists; (split; [reflexivity|auto]).
    - eexists; (split; [reflexivity|auto]). }
  unfold result, Runner.result_of in *. cbn [opt_get] in *.
  rewrite (own_obj_assign_other _ _ _ Hr), (own_obj_assign_other _ _ _ Hb),
          (own_obj_assign_other _ _ _ He).
  repeat split; try reflexivity. exact Hstatus.
Qed.

Lemma result_default_status (r : Runner.t) (now : Z) (partial : props) :
  own partial "status" = None ->
  opt_get (Runner.result_of r now partial) "status" = JStr "system_error".
Proof.
  intro Hp. unfold Runner.result_of. cbn [opt_get].
  now rewrite (own_obj_assign_other _ _ _ Hp).
Qed.

End RunnerClaims.

(** ** The poll query at the list endpoint *)

Section ListClaims.
Context {H : Host} {T : TaskClass}.
Import Interfaces.

(** C6 (as amended).  The poll tick sends the list endpoint the query
    [platform=<platform>,undefined], [current.runner=undefined],
    [last.status=undefined], [type=bisect].  For a worker whose platform
    is not empty and has no comma, and for jobs whose platform and
    claiming runner are not the string [undefined], the answer lists, in
    store order, exactly the jobs available for claim: platform equal to
    the worker's or unset, [current] unset, [last] unset, type [bisect];
    so, among those jobs, one whose [last] is set, whose [current] is set
    or whose platform is set and differs from the worker's is not
    listed. *)
Theorem poll_query_lists_available_jobs (r : Runner.t) (b : Server.Broker)
    (jobs : list Job) :
  map publicSubset (Server.getTasks b) = map job_json jobs ->
  contains_char "," (Runner.platform r) = false ->
  Runner.platform r <> "" ->
  (forall j, In j jobs ->
             platform j <> Some "undefined" /\
             (forall c, current j = Some c -> runner c <> "undefined")) ->
  Server.getJobs b (deliver (Runner.fetchAvailableJobs r)) =
  (b, {| Server.status := 200; Server.resp_headers := [];
         Server.resp_body :=
           Server.Json
             (JArr (map (fun j => JStr (id j))
                        (List.filter (available (Runner.platform r)) jobs))) |}).
Proof.
  intros Hstore Hcomma Hne Hjobs.
  unfold Server.getJobs. rewrite Hstore.
  change (Server.query (deliver (Runner.fetchAvailableJobs r)))
    with (Runner.searchParams (Runner.fetchAvailableJobs r)).
  rewrite (poll_query_selects r jobs Hcomma Hne Hjobs).
  rewrite map_map.
  rewrite (map_ext (fun j => opt_get (job_json j) "id") (fun j => JStr (id j)) job_id).
  reflexivity.
Qed.

End ListClaims.

(** The theorem above at a store of five jobs: a linux
    worker is offered the free one and the one for linux. *)
Lemma poll_query_lists_available_jobs_witness :
  getJobs1 (store_of listed_jobs)
    (deliver (H := Sample.host) (Runner.fetchAvailableJobs (worker "runner-A"))) =
  (store_of listed_jobs,
   {| Server.status := 200; Server.resp_headers := [];
      Server.resp_body := Server.Json (JArr [JStr "free"; JStr "linux-only"]) |}).
Proof.
  apply (poll_query_lists_available_jobs (H := Sample.host)
           (T := Sample.task_class) (worker "runner-A") (store_of listed_jobs)
           listed_jobs).
  - reflexivity.
  - reflexivity.
  - discriminate.
  - intros j Hj. simpl in Hj.
    repeat (destruct Hj as [<-|Hj];
            [split; [intro E; simpl in E; discriminate E|];
             intros c Hc; simpl in Hc; inversion Hc; simpl; discriminate|]).
    destruct Hj.
Defined.

(** C6, as stated, fails on a job whose [current] is set by a runner with
    the uuid [undefined]: the job is not available, and the poll query
    lists it. *)
Lemma poll_query_lists_job_claimed_by_undefined :
  Interfaces.current claimed_by_undefined <> None /\
  Interfaces.available "linux" claimed_by_undefined = false /\
  Server.resp_body
    (snd (getJobs1 (store_of [claimed_by_undefined])
            (deliver (H := Sample.host) (Runner.fetchAvailableJobs (worker "runner-A")))))
  = Server.Json (JArr [JStr "odd"]).
Proof. repeat split. discriminate. Qed.

(** ** Patches on a job *)

(** The theorem above at two batches: one that begins with a disallowed
    operation changes nothing; one whose disallowed operation comes second
    leaves the job as the first operation made it. *)
Lemma disallowed_operation_rejects_batch_witness :
  Server.status
    (snd (patchJob1 broker1 (patch_request "j1" None [set_id "other"; set_note "a"])))
  = 400%Z /\
  fst (patchJob1 broker1 (patch_request "j1" None [set_id "other"; set_note "a"]))
  = broker1 /\
  patchJob1 broker1 (patch_request "j1" None mixed_batch) =
  (Server.setTask broker1 "j1"
     (fst (applyPatch (H := Sample.host) (Server.rejects (T := Sample.task_class)) task1
             [set_note "a"])),
   {| Server.status := 400; Server.resp_headers := [];
      Server.resp_body := Server.Failure "OPERATION_OP_INVALID" |}).
Proof.
  destruct (disallowed_operation_rejects_batch (H := Sample.host)
              (T := Sample.task_class) broker1
              (patch_request "j1" None [set_id "other"; set_note "a"]) task1
              eq_refl eq_refl) as (Hstatus & _ & Hfirst).
  destruct (disallowed_operation_rejects_batch (H := Sample.host)
              (T := Sample.task_class) broker1
              (patch_request "j1" None mixed_batch) task1
              eq_refl eq_refl) as (_ & Hsecond & _).
  split; [|split].
  - apply Hstatus. reflexivity.
  - apply (Hfirst (set_id "other") [set_note "a"]); reflexivity.
  - apply (Hsecond [set_note "a"] (set_id "other") []); reflexivity.
Defined.

(** C3, as stated, fails on a batch whose disallowed operation comes
    second: the answer is 400, and the operation before it stays
    applied. *)
Lemma rejected_batch_keeps_earlier_operation :
  existsb (Server.rejects (T := Sample.task_class)) mixed_batch = true /\
  Server.status (snd (patchJob1 broker1 (patch_request "j1" None mixed_batch)))
  = 400%Z /\
  stored broker1 "j1" ["bot_client_data"; "note"] = JUndefined /\
  stored (fst (patchJob1 broker1 (patch_request "j1" None mixed_batch))) "j1"
         ["bot_client_data"; "note"] = JStr "a" /\
  fst (patchJob1 broker1 (patch_request "j1" None mixed_batch)) <> broker1.
Proof. repeat split. discriminate. Qed.

(** The theorem above at one job: the read stores the etag, the
    patch answers with a new one and leaves the stored one. *)
Lemma etag_is_stored_by_get_only_witness :
  Server.stored_etag (H := Sample.host) broker1 "j1" = Some JUndefined /\
  Server.stored_etag (H := Sample.host)
    (fst (getJob1 broker1 (get_request "j1"))) "j1"
  = option_map JStr (body_etag broker1 "j1") /\
  Server.stored_etag (H := Sample.host)
    (fst (patchJob1 (fst (getJob1 broker1 (get_request "j1")))
            (patch_request "j1" None [set_note "a"]))) "j1"
  = option_map JStr (body_etag broker1 "j1") /\
  Server.resp_headers
    (snd (patchJob1 broker1 (patch_request "j1" None [set_note "a"])))
  = [("ETag", create_etag (Host := Sample.host)
                (JSON_stringify (Host := Sample.host)
                   (Sample.visible
                      (stored (fst (patchJob1 broker1
                                      (patch_request "j1" None [set_note "a"])))
                              "j1" []))))].
Proof.
  destruct (etag_is_stored_by_get_only (H := Sample.host)
              (T := Sample.task_class)) as (Hget & Hpatch & Hok & _).
  unfold patchJob1, getJob1.
  split; [reflexivity|]. split; [|split].
  - exact (proj1 (Hget broker1 (get_request "j1") members1 eq_refl)).
  - rewrite Hpatch; [reflexivity|].
    intros o [<-|[]]. split; reflexivity.
  - destruct (Hok broker1 (patch_request "j1" None [set_note "a"]) eq_refl)
      as (task & Htask & Hheaders).
    rewrite Hheaders. unfold stored.
    change (Server.basename (Server.url (patch_request "j1" None [set_note "a"])))
      with "j1" in Htask.
    now rewrite Htask.
Defined.

(** C9, as stated, fails on a patch that names the stored etag: after a
    read has stored the etag, a move from [/etag] to a member that may be
    set is allowed (the validator looks at the target only), is answered
    200, and the stored etag is gone. *)
Lemma patch_removes_stored_etag :
  let read := fst (getJob1 broker1 (get_request "j1")) in
  let answer := patchJob1 read (patch_request "j1" None [move_etag]) in
  Server.stored_etag (H := Sample.host) read "j1" = Some (JStr etag1) /\
  Server.rejects (T := Sample.task_class) move_etag = false /\
  Server.status (snd answer) = 200%Z /\
  Server.stored_etag (H := Sample.host) (fst answer) "j1" = Some JUndefined /\
  stored (fst answer) "j1" ["bot_client_data"; "seen"] = JStr etag1.
Proof. repeat split. Qed.

(** ** Reports *)

(** The theorem above at the worker that waits for the child of [j1]:
    the output narrows, and the report says [success] with the pair. *)
Lemma exit_is_classified_witness :
  exists req reported,
    Runner.sent (step1 (snd first_claim)
                   (Runner.ChildClose 0 ["10.1.0 10.2.0"] (Some 0%Z) 30000)) =
    Runner.sent (snd first_claim) ++ [Runner.Send 0 req] /\
    Runner.method req = "PATCH" /\
    map (fun o => (op o, path o, value o)) (Runner.json req) =
    [("add", "/history/-", reported);
     ("replace", "/last", reported);
     ("remove", "/current", JUndefined)] /\
    opt_get (H := Sample.host) reported "status" = JStr "success" /\
    opt_get (H := Sample.host) reported "bisect_range"
    = JArr [JStr "10.1.0"; JStr "10.2.0"].
Proof.
  exact (proj1 (exit_is_classified (H := Sample.host) (P := Sample.parser)
                  (snd first_claim) 0 ["10.1.0 10.2.0"] (Some 0%Z) "ENOENT"
                  30000 eq_refl)).
Defined.

(** ** Where the code departs from the protocol *)

(** C1, on the code.  The claim patch of a worker carries the fetched etag
    in a header named [etag]; the broker reads [If-Match], finds none, and
    never answers such a patch with 412.  Two workers that fetched the
    same unclaimed job, with the same etag, both get 200 for their claims,
    and the job ends with the second worker as its runner. *)
Theorem both_claims_are_accepted :
  (forall (H : Host) (T : TaskClass) b r job initialEtag now,
      let req := deliver (snd (Runner.claim r job initialEtag now)) in
      Server.headers req = [("etag", initialEtag)] /\
      Server.header req "If-Match" = None /\
      Server.status (snd (Server.patchJob b req)) <> 412%Z) /\
  (exists e,
      etag_A claim_race = Ok e /\ etag_B claim_race = Ok e /\
      Runner.req_headers (claim_A claim_race) = [("etag", e)] /\
      Runner.req_headers (claim_B claim_race) = [("etag", e)]) /\
  Runner.statusCode (answer_A claim_race) = 200%Z /\
  Runner.statusCode (answer_B claim_race) = 200%Z /\
  stored (broker_after claim_race) "j1" ["current"; "runner"] = JStr "runner-B".
Proof.
  split.
  - intros H T b r job initialEtag now req.
    assert (Hnone : Server.header req "If-Match" = None) by reflexivity.
    split; [reflexivity|]. split; [exact Hnone|].
    now apply no_if_match_no_412.
  - split; [eexists; repeat split|repeat split].
Qed.

(** C2, on the code.  After a read (which stores the etag) and a patch
    that changes the visible body, a patch whose [If-Match] is the etag of
    the read, which differs from the etag of the body as it now is, is not
    answered with 412: it is answered with 200 and its operation is
    applied.  The stored etag the check compares against is still the one
    of the read. *)
Theorem stale_if_match_is_accepted :
  (exists e0 e1,
      etag_read stale_patch = Some e0 /\
      etag_between stale_patch = Some e1 /\
      e0 <> e1 /\
      stored (broker_between stale_patch) "j1" ["etag"] = JStr e0) /\
  Server.status (first_patch stale_patch) = 200%Z /\
  stored (broker_between stale_patch) "j1" ["bot_client_data"; "note"]
  = JStr "a" /\
  Server.status (second_patch stale_patch) = 200%Z /\
  stored (broker_end stale_patch) "j1" ["bot_client_data"; "note"] = JStr "b".
Proof.
  split; [|repeat split].
  do 2 eexists. split; [reflexivity|]. split; [reflexivity|].
  split; [discriminate|reflexivity].
Qed.

(** C4, on the code.  The completion report is one PATCH with exactly the
    three operations, in the order add to [history], replace [last],
    remove [current], the first two with the same Result; the worker's
    latest etag goes in a header named [etag], so the broker finds no
    [If-Match] and applies the report whatever the job's etag: a report
    sent with an etag that is no longer the etag of the body is answered
    with 200. *)
Theorem report_is_one_patch_without_precondition :
  (forall r now partial,
      let req := Runner.patchResult r now partial in
      let result := Runner.result_of r now partial in
      Runner.method req = "PATCH" /\
      Runner.target req = ("/api/jobs/" ++ Runner.template (Runner.jobId r))%string /\
      map (fun o => (op o, path o, value o)) (Runner.json req) =
      [("add", "/history/-", result);
       ("replace", "/last", result);
       ("remove", "/current", JUndefined)] /\
      Runner.req_headers req =
      match Runner.etag r with Some e => [("etag", e)] | None => [] end) /\
  (forall (H : Host) (T : TaskClass) b r now partial,
      let req := deliver (Runner.patchResult r now partial) in
      Server.header req "If-Match" = None /\
      Server.status (snd (Server.patchJob b req)) <> 412%Z) /\
  (exists e e',
      worker_etag late_report = Some e /\
      etag_at_report late_report = Some e' /\
      e <> e' /\
      Runner.req_headers (report_request late_report) = [("etag", e)]) /\
  Runner.statusCode (report_answer late_report) = 200%Z /\
  stored (broker_reported late_report) "j1" ["current"] = JUndefined /\
  stored (broker_reported late_report) "j1" ["last"; "status"] = JStr "success" /\
  stored (broker_reported late_report) "j1" ["history"; "length"] = JNum 1.
Proof.
  split; [intros; repeat split|].
  split.
  - intros H T b r now partial req.
    assert (Hnone : Server.header req "If-Match" = None)
      by apply runner_patch_no_if_match.
    split; [exact Hnone|now apply no_if_match_no_412].
  - split; [|repeat split].
    do 2 eexists. split; [reflexivity|]. split; [reflexivity|].
    split; [discriminate|reflexivity].
Qed.

(** C8, on the code.  The interval calls [pollSafely] whether or not an
    earlier invocation of [poll] has finished: each time it fires while the
    timer is set, one more invocation is in flight.  A worker that has
    claimed [j1] and waits for its child gets, at the next firing, a second
    invocation that claims [j2]: two invocations wait for their children,
    both jobs carry the worker as their runner, the bookkeeping of the
    first claim is overwritten by the second, and the exit of the first
    child is reported to [j2]. *)
Theorem timer_starts_overlapping_poll :
  (forall (H : Host) (P : Parser) l,
      Runner.in_flight (Runner.step l Runner.Timer) =
      if Runner.interval (Runner.self l) then S (Runner.in_flight l)
      else Runner.in_flight l) /\
  Runner.polls (snd first_claim) = [(0, Runner.ChildRunning)] /\
  Runner.polls (step1 (snd first_claim) Runner.Timer)
  = [(0, Runner.ChildRunning); (1, Runner.AwaitJobs)] /\
  Runner.polls (snd overlap)
  = [(0, Runner.ChildRunning); (1, Runner.ChildRunning)] /\
  Runner.in_flight (snd overlap) = 2 /\
  stored (fst overlap) "j1" ["current"; "runner"] = JStr "runner-A" /\
  stored (fst overlap) "j2" ["current"; "runner"] = JStr "runner-A" /\
  Runner.jobId (Runner.self (snd first_claim)) = Some "j1" /\
  Runner.jobId (Runner.self (snd overlap)) = Some "j2" /\
  option_map Runner.target (last_request (Runner.sent first_exit) 0)
  = Some "/api/jobs/j2".
Proof.
  split; [|repeat split].
  intros H P l. simpl. destruct (Runner.interval (Runner.self l)); [|reflexivity].
  unfold Runner.in_flight, Runner.pollSafely. simpl.
  rewrite length_app. simpl. lia.
Qed.

(** C10, on the code.  At the end of a child the invocation sends the
    report, whose Result carries [runner] equal to the worker's uuid,
    [time_ended] equal to the time of the report, a status that is one
    of the three ([system_error] when the partial result has none), and
    as [time_begun] the content of the worker's one [timeBegun] field at
    that moment.  With one invocation that is the time of the claim.
    With two invocations in flight it is not: the job [j1] was claimed at
    1000, the second invocation claimed [j2] at 20001, and the report
    sent at the exit of the child of [j1] carries 20001; once the second
    invocation has finished and cleared the field, the report sent at
    the exit of the child of [j1] carries no [time_begun] at all. *)
Theorem result_carries_the_one_time_slot :
  (forall (H : Host) (P : Parser) l p e now,
      Runner.waiting (Runner.polls l) p = Some Runner.ChildRunning ->
      exists req reported,
        Runner.sent (Runner.step l (Runner.ended p e now)) =
        Runner.sent l ++ [Runner.Send p req] /\
        map (fun o => (op o, path o, value o)) (Runner.json req) =
        [("add", "/history/-", reported);
         ("replace", "/last", reported);
         ("remove", "/current", JUndefined)] /\
        opt_get reported "runner" = JStr (Runner.uuid (Runner.self l)) /\
        opt_get reported "time_begun"
        = Runner.js_time (Runner.timeBegun (Runner.self l)) /\
        opt_get reported "time_ended" = JNum now /\
        (exists s, opt_get reported "status" = JStr s /\
                   (s = "success" \/ s = "test_error" \/ s = "system_error"))) /\
  (forall (H : Host) r now partial,
      own partial "status" = None ->
      exists reported,
        map (fun o => (op o, path o, value o))
            (Runner.json (Runner.patchResult r now partial)) =
        [("add", "/history/-", reported);
         ("replace", "/last", reported);
         ("remove", "/current", JUndefined)] /\
        opt_get reported "status" = JStr "system_error") /\
  stored (fst first_claim) "j1" ["current"; "time_begun"] = JNum 1000 /\
  reported_times
    (last_request
       (Runner.sent
          (step1 (snd first_claim)
             (Runner.ChildClose 0 ["10.1.0 10.2.0"] (Some 0%Z) 30000))) 0)
  = Some [("/history/-", JNum 1000); ("/last", JNum 1000);
          ("/current", JUndefined)] /\
  stored (fst overlap) "j1" ["current"; "time_begun"] = JNum 1000 /\
  stored (fst overlap) "j2" ["current"; "time_begun"] = JNum 20001 /\
  reported_times (last_request (Runner.sent first_exit) 0)
  = Some [("/history/-", JNum 20001); ("/last", JNum 20001);
          ("/current", JUndefined)] /\
  Runner.polls (snd second_done) = [(0, Runner.ChildRunning)] /\
  Runner.timeBegun (Runner.self (snd second_done)) = None /\
  reported_times (last_request (Runner.sent late_exit) 0)
  = Some [("/history/-", JUndefined); ("/last", JUndefined);
          ("/current", JUndefined)].
Proof.
  split.
  - intros H P l p e now Hw.
    exists (Runner.patchResult (Runner.self l) now (Runner.classified e)),
           (Runner.result_of (Runner.self l) now (Runner.classified e)).
    split; [now apply child_end_is_reported|]. split; [reflexivity|].
    apply result_defaults.
  - split.
    + intros H r now partial Hp.
      exists (Runner.result_of r now partial). split; [reflexivity|].
      now apply result_default_status.
    + repeat split.
Qed.

(** The theorem above at the worker that waits for the child of [j1],
    with one invocation in flight: the report sent at the [error] event
    of the child carries the uuid of the worker, the time of the claim
    and the time of the report. *)
Lemma result_carries_the_one_time_slot_witness :
  exists req reported,
    Runner.sent (step1 (snd first_claim) (Runner.ChildError 0 "ENOENT" 30000)) =
    Runner.sent (snd first_claim) ++ [Runner.Send 0 req] /\
    map (fun o => (op o, path o, value o)) (Runner.json req) =
    [("add", "/history/-", reported);
     ("replace", "/last", reported);
     ("remove", "/current", JUndefined)] /\
    opt_get (H := Sample.host) reported "runner" = JStr "runner-A" /\
    opt_get (H := Sample.host) reported "time_begun" = JNum 1000 /\
    opt_get (H := Sample.host) reported "time_ended" = JNum 30000 /\
    (exists s, opt_get (H := Sample.host) reported "status" = JStr s /\
               (s = "success" \/ s = "test_error" \/ s = "system_error")).
Proof.
  destruct result_carries_the_one_time_slot as [Hreport _].
  exact (Hreport Sample.host Sample.parser (snd first_claim) 0
           (Runner.Errored "ENOENT") 30000%Z eq_refl).
Defined.

(* ------------------------------------------------------------------ *)
(** * Further properties *)

(** ** The filter over whole queries *)

Section FilterLaws.
Context {H : Host}.

Lemma forallb_permutation (A : Type) (f : A -> bool) (l l' : list A) :
  Permutation l l' -> forallb f l = forallb f l'.
Proof.
  induction 1 as [|x l l' _ IH|x y l|l l' l'' _ IH1 _ IH2]; simpl.
  - reflexivity.
  - now rewrite IH.
  - destruct (f x), (f y); reflexivity.
  - now rewrite IH1.
Qed.

(** X1.  The order of the keys of a query does not matter: two queries
    with the same entries in another order keep the same candidates. *)
Theorem filter_ignores_key_order (cands : list jsval)
    (query query' : list (string * string)) :
  Permutation query query' ->
  Server.filter cands query = Server.filter cands query'.
Proof.
  intro Hp. rewrite !filter_passes. apply filter_ext. intro c.
  unfold Grammar.passes_by. now apply forallb_permutation.
Qed.

(** X2.  Keys narrow: filtering by two queries one after the other is
    filtering by both at once, filtering a result again by the same query
    changes nothing, and a longer query keeps no candidate a shorter one
    drops. *)
Theorem filter_narrows (cands : list jsval) (q1 q2 : list (string * string)) :
  Server.filter cands (q1 ++ q2) = Server.filter (Server.filter cands q1) q2 /\
  Server.filter (Server.filter cands q1) q1 = Server.filter cands q1 /\
  (forall c, In c (Server.filter cands (q1 ++ q2)) ->
             In c (Server.filter cands q1)) /\
  length (Server.filter cands (q1 ++ q2)) <= length (Server.filter cands q1)
  /\ length (Server.filter cands q1) <= length cands.
Proof.
  assert (Happ : Server.filter cands (q1 ++ q2) =
                 Server.filter (Server.filter cands q1) q2)
    by (unfold Server.filter; apply fold_left_app).
  split; [exact Happ|]. split; [|split; [|split]].
  - rewrite !filter_passes, filter_twice. apply filter_ext. intro c.
    now destruct (Grammar.passes_by opt_get c q1).
  - intros c Hc. rewrite Happ, (filter_passes q2) in Hc.
    now apply filter_In in Hc.
  - rewrite Happ, (filter_passes q2). apply filter_length_le.
  - rewrite filter_passes. apply filter_length_le.
Qed.

Lemma last_char_bang (k : string) : last_char (k ++ "!") = Some "!"%char.
Proof.
  induction k as [|c k IH]; [reflexivity|].
  simpl. destruct (k ++ "!")%string eqn:E; [|exact IH].
  destruct k; discriminate.
Qed.

Lemma drop_last_bang (k : string) : drop_last (k ++ "!") = k.
Proof.
  induction k as [|c k IH]; [reflexivity|].
  simpl. destruct (k ++ "!")%string eqn:E.
  - destruct k; discriminate.
  - now rewrite IH.
Qed.

Lemma negated_key_passes (alts : list string) (c : jsval) (k : string) :
  Grammar.negated k = false ->
  Grammar.passes_over_by opt_get alts c (k ++ "!") = negb (Grammar.passes_over_by opt_get alts c k).
Proof.
  intro Hk. unfold Grammar.passes_over_by, Grammar.names_of.
  assert (Hn : Grammar.negated (k ++ "!") = true).
  { unfold Grammar.negated. now rewrite last_char_bang. }
  rewrite Hn, Hk, drop_last_bang. symmetry. apply none_is_not_any.
Qed.

(** X3.  A key with [!] keeps exactly the candidates the key without it
    drops: for a key that does not itself end in [!], every candidate is
    kept by one of [key=value] and [key!=value], and by one only. *)
Theorem negated_key_keeps_the_rest (cands : list jsval) (k v : string)
    (c : jsval) :
  last_char k <> Some "!"%char ->
  (In c (Server.filter cands [((k ++ "!")%string, v)]) <->
   In c cands /\ ~ In c (Server.filter cands [(k, v)])).
Proof.
  intro Hlast.
  assert (Hk : Grammar.negated k = false).
  { unfold Grammar.negated. destruct (last_char k) as [ch|]; [|reflexivity].
    destruct (Ascii.eqb_spec ch "!"); [congruence|reflexivity]. }
  rewrite !filter_passes, !filter_In. unfold Grammar.passes_by. simpl.
  rewrite (negated_key_passes _ _ _ Hk), !andb_true_r.
  destruct (Grammar.passes_over_by opt_get (Grammar.alternatives v) c k); simpl.
  - split; [intros [_ Hf]; discriminate|intros [Hin Hn]; exfalso; auto].
  - split; [intros [Hin _]; split; [exact Hin|intros [_ Hf]; discriminate]
           |intros [Hin _]; auto].
Qed.

(** X4.  A query value without any non-empty piece (the empty value, or
    commas only) matches nothing: the key keeps no candidate, and with [!]
    it keeps them all. *)
Theorem empty_value_matches_nothing (cands : list jsval) (k v : string) :
  (forall a, In a (split "," v) -> a = "") ->
  Server.filter cands [(k, v)] =
  if Grammar.negated k then cands else [].
Proof.
  intro Hempty. rewrite filter_passes.
  assert (Halts : Grammar.alternatives v = []).
  { unfold Grammar.alternatives, Grammar.pieces.
    induction (split "," v) as [|a l IH]; [reflexivity|]. simpl.
    rewrite (Hempty a (or_introl eq_refl)). simpl.
    apply IH. intros b Hb. apply Hempty. now right. }
  unfold Grammar.passes_by, Grammar.passes_over_by. simpl. rewrite Halts.
  destruct (Grammar.negated k); simpl.
  - induction cands as [|c cands IH]; simpl; [reflexivity|now rewrite IH].
  - induction cands as [|c cands IH]; simpl; [reflexivity|exact IH].
Qed.

End FilterLaws.

(** The theorem above on two keys in either order. *)
Lemma filter_ignores_key_order_witness :
  Server.filter (H := Sample.host) [job_A; job_B; job_C]
    [("platform", "mac,win"); ("id!", "B")] =
  Server.filter (H := Sample.host) [job_A; job_B; job_C]
    [("id!", "B"); ("platform", "mac,win")].
Proof.
  apply (filter_ignores_key_order (H := Sample.host)). apply perm_swap.
Defined.

(** The theorem above on the key [platform]: job B is kept by
    [platform!=mac]. *)
Lemma negated_key_keeps_the_rest_witness :
  In job_B (Server.filter (H := Sample.host) [job_A; job_B; job_C]
              [("platform!", "mac")]).
Proof.
  apply (negated_key_keeps_the_rest (H := Sample.host)
           [job_A; job_B; job_C] "platform" "mac" job_B).
  - discriminate.
  - split; [right; now left|].
    intros [E|[]]. discriminate E.
Defined.

(** The theorem above on a value of commas. *)
Lemma empty_value_matches_nothing_witness :
  Server.filter (H := Sample.host) [job_A; job_B; job_C] [("platform", ",,")] = [] /\
  Server.filter (H := Sample.host) [job_A; job_B; job_C] [("platform!", ",,")]
  = [job_A; job_B; job_C].
Proof.
  split.
  - apply (empty_value_matches_nothing (H := Sample.host)
             [job_A; job_B; job_C] "platform" ",,").
    intros a [<-|[<-|[<-|[]]]]; reflexivity.
  - apply (empty_value_matches_nothing (H := Sample.host)
             [job_A; job_B; job_C] "platform!" ",,").
    intros a [<-|[<-|[<-|[]]]]; reflexivity.
Defined.

(** The theorem above on the three jobs: what two keys keep, the first
    key keeps. *)
Lemma filter_narrows_witness :
  In job_A (Server.filter (H := Sample.host) [job_A; job_B; job_C]
              [("platform", "mac,win")]).
Proof.
  destruct (filter_narrows (H := Sample.host) [job_A; job_B; job_C]
              [("platform", "mac,win")] [("id!", "B")])
    as (_ & _ & Hin & _).
  apply Hin. now left.
Defined.

(** ** The job named by a url *)

Section Urls.
Context {H : Host}.

Lemma split_without_separator (sep : ascii) (s : string) :
  contains_char sep s = false -> split sep s = [s].
Proof.
  induction s as [|c s IH]; simpl; intro Hs; [reflexivity|].
  apply orb_false_iff in Hs as [Hc Hs]. now rewrite Hc, (IH Hs).
Qed.

Lemma basename_of_job_url (id : string) :
  id <> "" -> contains_char "/" id = false ->
  Server.basename ("/api/jobs/" ++ id) = id.
Proof.
  intros Hne Hid. unfold Server.basename.
  change ("/api/jobs/" ++ id)%string
    with ("" ++ String "/" ("api" ++ String "/" ("jobs" ++ String "/" id)))%string.
  rewrite !split_at_separator by reflexivity.
  rewrite (split_without_separator _ _ Hid). simpl.
  destruct (String.eqb_spec id ""); [contradiction|reflexivity].
Qed.



Lemma pathname_plain (url : string) :
  contains_char "?" url = false -> Server.pathname url = url.
Proof.
  intro Hq. unfold Server.pathname.
  now rewrite (split_without_separator _ _ Hq).
Qed.

Lemma substring_whole (s : string) :
  String.substring 0 (String.length s) s = s.
Proof. induction s as [|c s IH]; simpl; [reflexivity|now rewrite IH]. Qed.




Lemma toLowerCase_empty (s : string) : toLowerCase s = "" -> s = "".
Proof. destruct s; [reflexivity|discriminate]. Qed.


(** A text without [%] decodes. *)
Lemma decodable_plain (s : string) :
  contains_char "%" s = false -> Server.decodable s = true.
Proof.
  unfold Server.decodable. generalize (String.length s) as fuel.
  induction s as [|c s IH]; intros fuel Hs; destruct fuel; try reflexivity.
  simpl in Hs. apply orb_false_iff in Hs as [Hc Hs].
  cbn [Server.decodes].
  destruct c as [[] [] [] [] [] [] [] []]; try discriminate Hc;
    now apply IH.
Qed.

Lemma star_job_url (rest : string) :
  Server.star "/api/jobs/" ("/api/jobs/" ++ rest) = Some rest.
Proof.
  unfold Server.star.
  change (toLowerCase ("/api/jobs/" ++ rest))
    with ("/api/jobs/" ++ toLowerCase rest)%string.
  cbn [Server.strip_prefix append Ascii.eqb Bool.eqb].
  cbn [String.length Nat.sub String.substring].
  now rewrite Nat.sub_0_r, substring_whole.
Qed.

(** The route of the url of a job, for an id that is spelled in the url
    as it is. *)
Lemma route_of_job_url (id : string) :
  id <> "" -> contains_char "?" id = false -> contains_char "%" id = false ->
  Server.route_of "GET" ("/api/jobs/" ++ id) = Server.GetJob /\
  Server.route_of "PATCH" ("/api/jobs/" ++ id) = Server.PatchJob.
Proof.
  intros Hne Hq Hp. unfold Server.route_of.
  rewrite pathname_plain by (cbn; exact Hq).
  rewrite star_job_url. unfold Server.decoded.
  rewrite (decodable_plain id Hp).
  change (toLowerCase ("/api/jobs/" ++ id))
    with ("/api/jobs/" ++ toLowerCase id)%string.
  assert (Hlow : toLowerCase id <> "")
    by (intro E; apply Hne; now apply toLowerCase_empty).
  split; [|reflexivity].
  destruct (toLowerCase id) as [|c low]; [contradiction|reflexivity].
Qed.



(** X5.  The url the runner builds for a job leads the server back to the
    same job: for an id that is not empty, has none of [/], [?] and [%],
    and that [new URL] leaves in the path as it is spelled, the requests
    of [fetchJobAndEtag] and [patchJob] are routed to the handlers of a
    job, and the id those take from the url is that id. *)
Theorem job_url_round_trip (r : Runner.t) (id : string) :
  id <> "" -> contains_char "/" id = false ->
  contains_char "?" id = false -> contains_char "%" id = false ->
  URL_target ("api/jobs/" ++ id) (Runner.brokerUrl r)
  = ("/api/jobs/" ++ id)%string ->
  (Server.route_of "GET" (Server.url (deliver (Runner.fetchJobAndEtag r id)))
   = Server.GetJob /\
   Server.basename (Server.url (deliver (Runner.fetchJobAndEtag r id))) = id) /\
  (forall patches,
      Runner.jobId r = Some id ->
      Server.route_of "PATCH" (Server.url (deliver (Runner.patchJob r patches)))
      = Server.PatchJob /\
      Server.basename (Server.url (deliver (Runner.patchJob r patches))) = id).
Proof.
  intros Hne Hid Hq Hp Hurl. split.
  - assert (Hget : Server.url (deliver (Runner.fetchJobAndEtag r id))
                   = ("/api/jobs/" ++ id)%string) by exact Hurl.
    rewrite Hget. split.
    + now apply route_of_job_url.
    + now apply basename_of_job_url.
  - intros patches Hr.
    assert (Hpatch : Server.url (deliver (Runner.patchJob r patches))
                     = ("/api/jobs/" ++ id)%string).
    { unfold deliver, Runner.patchJob. cbn [Server.url Runner.target Runner.base].
      rewrite Hr. exact Hurl. }
    rewrite Hpatch. split.
    + now apply route_of_job_url.
    + now apply basename_of_job_url.
Qed.

Context {L : TaskLog}.


End Urls.

(** ** The handlers and the store *)

Section StoreLaws.
Context {H : Host} {T : TaskClass} {L : TaskLog}.

Lemma setTask_keys (b : Server.Broker) (id : string) (task : jsval) :
  map fst (Server.setTask b id task) = map fst b.
Proof.
  induction b as [|[k t] b IH]; simpl; [reflexivity|].
  destruct (k =? id); simpl; [reflexivity|now rewrite IH].
Qed.

Lemma setTask_other (b : Server.Broker) (id id' : string) (task : jsval) :
  id' <> id ->
  Server.getTask (Server.setTask b id task) id' = Server.getTask b id'.
Proof.
  intro Hne. rewrite getTask_setTask.
  destruct (String.eqb_spec id' id); [contradiction|reflexivity].
Qed.

Lemma touches_frame (b b' : Server.Broker) (id id' : string) :
  Server.touches b id b' ->
  map fst b' = map fst b /\
  (id' <> id -> Server.getTask b' id' = Server.getTask b id').
Proof.
  intros [|task]; [now split|].
  split; [apply setTask_keys|apply setTask_other].
Qed.

Lemma getJob_touches (b : Server.Broker) (req : Server.Request) :
  Server.touches b (Server.basename (Server.url req)) (fst (Server.getJob b req)).
Proof.
  unfold Server.getJob.
  destruct (Server.getTask b _); [|constructor].
  destruct (Server.getTaskBody _). constructor.
Qed.

Lemma patchJob_touches (b : Server.Broker) (req : Server.Request) :
  Server.touches b (Server.basename (Server.url req)) (fst (Server.patchJob b req)).
Proof.
  unfold Server.patchJob.
  destruct (Server.getTask b _) as [task|]; [|constructor].
  destruct (Server.precondition_fails _ task); [constructor|].
  destruct (applyPatch Server.rejects task (Server.body req)) as [task' [e|]];
    [constructor|].
  destruct (Server.getTaskBody task'). constructor.
Qed.

(** X7.  A handler works on the one job its url names: after a GET, a
    PATCH, a list, a log read or a log append, whatever the outcome, the
    store holds the same identifiers in the same order, and the record
    of every other job is the one it held before. *)
Theorem handlers_touch_one_job (b : Server.Broker) (req : Server.Request)
    (lreq : Server.LogRequest) (id' : string) :
  (map fst (fst (Server.getJob b req)) = map fst b /\
   map fst (fst (Server.patchJob b req)) = map fst b /\
   map fst (fst (Server.putLog b lreq)) = map fst b /\
   fst (Server.getLog b req) = b /\
   fst (Server.getJobs b req) = b) /\
  (id' <> Server.basename (Server.url req) ->
   Server.getTask (fst (Server.getJob b req)) id' = Server.getTask b id' /\
   Server.getTask (fst (Server.patchJob b req)) id' = Server.getTask b id') /\
  (Server.exec_job_log (Server.log_url lreq) <> Some id' ->
   Server.getTask (fst (Server.putLog b lreq)) id' = Server.getTask b id').
Proof.
  assert (Hput : Server.touches b
                   match Server.exec_job_log (Server.log_url lreq) with
                   | Some id => id
                   | None => ""
                   end (fst (Server.putLog b lreq))).
  { unfold Server.putLog.
    destruct (Server.exec_job_log _) as [id|]; [|constructor].
    destruct (Server.getTask b id); constructor. }
  split; [|split].
  - repeat split.
    + apply (touches_frame _ _ _ "" (getJob_touches b req)).
    + apply (touches_frame _ _ _ "" (patchJob_touches b req)).
    + apply (touches_frame _ _ _ "" Hput).
    + unfold Server.getLog. now destruct (Server.getTask b _).
  - intro Hne. split.
    + now apply (touches_frame _ _ _ id' (getJob_touches b req)).
    + now apply (touches_frame _ _ _ id' (patchJob_touches b req)).
  - intro Hne. unfold Server.putLog in *.
    destruct (Server.exec_job_log _) as [id|]; [|reflexivity].
    destruct (Server.getTask b id); [|reflexivity].
    simpl. apply setTask_other. congruence.
Qed.

(** X8.  An identifier the store does not hold is answered with 404 and
    the text [Unknown job '<id>'] by each handler of a job (read, patch,
    log read, log append), before anything else is looked at, and the
    store is left as it is. *)
Theorem unknown_job_is_not_found (b : Server.Broker) (req : Server.Request)
    (lreq : Server.LogRequest) (id : string) :
  Server.getTask b id = None ->
  (Server.basename (Server.url req) = id ->
   Server.getJob b req = (b, Server.unknown_job id) /\
   Server.patchJob b req = (b, Server.unknown_job id) /\
   Server.getLog b req = (b, Server.unknown_job id)) /\
  (Server.exec_job_log (Server.log_url lreq) = Some id ->
   Server.putLog b lreq = (b, Server.unknown_job id)) /\
  Server.status (Server.unknown_job id) = 404%Z /\
  Server.resp_body (Server.unknown_job id)
  = Server.Text ("Unknown job '" ++ id ++ "'").
Proof.
  intro Hg. split; [|split; [|split; reflexivity]].
  - intros <-. unfold Server.getJob, Server.patchJob, Server.getLog.
    now rewrite Hg.
  - intro He. unfold Server.putLog. now rewrite He, Hg.
Qed.

(** X9.  A PATCH is answered 412 exactly when the job is known, the
    request has a non-empty [If-Match], and the job's stored [etag]
    member is not that string; the store is then left as it is.  A
    request without the header, or with an empty one, is never answered
    412. *)
Theorem precondition_failed_exactly_when (b : Server.Broker)
    (req : Server.Request) :
  (Server.status (snd (Server.patchJob b req)) = 412%Z <->
   exists task e,
     Server.getTask b (Server.basename (Server.url req)) = Some task /\
     Server.header req "If-Match" = Some e /\
     e <> "" /\
     opt_get task "etag" <> JStr e) /\
  (Server.status (snd (Server.patchJob b req)) = 412%Z ->
   fst (Server.patchJob b req) = b).
Proof.
  unfold Server.patchJob.
  destruct (Server.getTask b _) as [task|] eqn:Hg.
  2:{ split; [split|]; [discriminate|intros (t & e & Ht & _); discriminate
                       |discriminate]. }
  destruct (Server.precondition_fails _ task) eqn:Hp.
  - split; [split; [intros _|reflexivity]|reflexivity].
    unfold Server.precondition_fails in Hp.
    destruct (Server.header req "If-Match") as [e|]; [|discriminate].
    apply andb_true_iff in Hp as [He Hs].
    exists task, e. repeat split.
    + intros ->. discriminate.
    + intro Hst. rewrite Hst, String.eqb_refl in Hs. discriminate.
  - assert (Hno : Server.status
                    (snd (let (task0, o) :=
                            applyPatch Server.rejects task (Server.body req) in
                          match o with
                          | Some err =>
                              (Server.setTask b (Server.basename (Server.url req)) task0,
                               {| Server.status := 400; Server.resp_headers := [];
                                  Server.resp_body := Server.Failure err |})
                          | None =>
                              let '(_, etag) := Server.getTaskBody task0 in
                              (Server.setTask b (Server.basename (Server.url req)) task0,
                               {| Server.status := 200;
                                  Server.resp_headers := [("ETag", etag)];
                                  Server.resp_body := Server.Empty |})
                          end)) <> 412%Z).
    { destruct (applyPatch _ _ _) as [task' [e|]]; [simpl; discriminate|].
      destruct (Server.getTaskBody task'). simpl. discriminate. }
    split; [split|]; [intro E; now elim Hno| |intro E; now elim Hno].
    intros (t & e & Ht & Hh & Hne & Hst). exfalso.
    inversion Ht; subst t. unfold Server.precondition_fails in Hp.
    rewrite Hh in Hp. apply andb_false_iff in Hp as [He|Hs].
    + apply negb_false_iff in He. apply String.eqb_eq in He. contradiction.
    + apply negb_false_iff in Hs.
      destruct (opt_get task "etag"); try discriminate.
      apply String.eqb_eq in Hs. now subst.
Qed.

End StoreLaws.

(** ** Preconditions, reads and authorization *)

Ltac case_ifs H :=
  repeat match type of H with
         | context [if ?c then _ else _] => destruct c
         end.

Section PatchLaws.
Context {H : Host} {T : TaskClass}.

Lemma patched_keeps_stored_etag (reqs : list Server.Request) :
  (forall r, In r reqs ->
             forall o, In o (Server.body r) -> names_member "etag" o = false) ->
  forall b id,
    Server.stored_etag (Server.patched b reqs) id = Server.stored_etag b id.
Proof.
  unfold Server.patched.
  induction reqs as [|r reqs IH]; intros Hn b id; [reflexivity|].
  simpl. rewrite IH by (intros r' Hr'; apply Hn; now right).
  apply patchJob_keeps_stored_etag. apply Hn. now left.
Qed.

(** X10.  The etag a GET returns opens the precondition of a later PATCH
    of that job: a PATCH whose [If-Match] is the [ETag] of the GET is not
    answered 412, also when PATCH requests were served in between, on
    this job or on others, whose operations neither name the [etag]
    member nor move the document into itself. *)
Theorem etag_of_read_passes_precondition (b : Server.Broker)
    (get : Server.Request) (o : props) (between : list Server.Request)
    (req : Server.Request) :
  let id := Server.basename (Server.url get) in
  let etag := create_etag (JSON_stringify (publicSubset (JObj o))) in
  Server.getTask b id = Some (JObj o) ->
  (forall r, In r between ->
             forall op, In op (Server.body r) ->
                        names_member "etag" op = false /\
                        moves_root op = false) ->
  Server.basename (Server.url req) = id ->
  Server.header req "If-Match" = Some etag ->
  Server.assoc (Server.resp_headers (snd (Server.getJob b get))) "ETag"
  = Some etag /\
  Server.status
    (snd (Server.patchJob (Server.patched (fst (Server.getJob b get)) between)
            req)) <> 412%Z.
Proof.
  intros id etag Hg Hbetween Hid Hif.
  assert (Hget : Server.stored_etag (fst (Server.getJob b get)) id
                 = Some (JStr etag)).
  { unfold Server.getJob. fold id. rewrite Hg. unfold Server.getTaskBody.
    cbn [fst]. unfold Server.stored_etag.
    rewrite getTask_setTask, String.eqb_refl, Hg. simpl.
    now rewrite own_obj_set_same. }
  split.
  { unfold Server.getJob. fold id. rewrite Hg. reflexivity. }
  rewrite <- (patched_keeps_stored_etag between) in Hget
    by (intros r Hr op Hop; now apply (Hbetween r Hr op Hop)).
  unfold Server.patchJob. rewrite Hid.
  unfold Server.stored_etag in Hget.
  destruct (Server.getTask (Server.patched _ between) id) as [task|];
    [|simpl; discriminate].
  simpl in Hget. inversion Hget as [Hstored].
  unfold Server.precondition_fails. rewrite Hif, Hstored, String.eqb_refl.
  rewrite andb_false_r.
  destruct (applyPatch Server.rejects task (Server.body req)) as [task' [e|]];
    [simpl; discriminate|].
  destruct (Server.getTaskBody task'). simpl. discriminate.
Qed.

Lemma arr_set_get (l : list jsval) (i : Z) :
  ((0 <=? i)%Z && (i <? Z.of_nat (length l))%Z) = true ->
  arr_set l i (nth (Z.to_nat i) l JUndefined) = l.
Proof.
  intro Hi. apply andb_true_iff in Hi as [H0 Hlt].
  apply Z.leb_le in H0. apply Z.ltb_lt in Hlt.
  rewrite <- (Z2Nat.id i H0) at 1. apply arr_set_nth. lia.
Qed.

(** An operation that only reads gives the document back. *)
Lemma walk_reads (validate : bool) (a : action) :
  (a = ActNone \/ exists v, a = ActTest v) ->
  forall keys prev obj obj',
    walk validate a prev keys obj = Ok obj' -> obj' = obj.
Proof.
  intro Ha. induction keys as [|k keys IH]; intros prev obj obj' Hw;
    [now inversion Hw|].
  cbn [walk] in Hw.
  destruct (banned prev (unescapePathComponent k)); [discriminate|].
  destruct obj as [| | b | n | s | l | o | f]; try discriminate.
  - destruct keys; [|destruct (walk _ _ _ _ _); simpl in Hw; try discriminate;
                     now inversion Hw].
    destruct Ha as [->|[v ->]]; simpl in Hw; case_ifs Hw; try discriminate;
      now inversion Hw.
  - destruct keys; [|destruct (walk _ _ _ _ _); simpl in Hw; try discriminate;
                     now inversion Hw].
    destruct Ha as [->|[v ->]]; simpl in Hw; case_ifs Hw; try discriminate;
      now inversion Hw.
  - destruct keys; [|destruct (walk _ _ _ _ _); simpl in Hw; try discriminate;
                     now inversion Hw].
    destruct Ha as [->|[v ->]]; simpl in Hw; case_ifs Hw; try discriminate;
      now inversion Hw.
  - destruct (array_key validate l (unescapePathComponent k)) as [ak|e];
      simpl in Hw; [|discriminate].
    destruct keys as [|k' keys].
    + destruct Ha as [->|[v ->]]; simpl in Hw; case_ifs Hw; try discriminate;
        now inversion Hw.
    + destruct (validate && negb (is_object (read_arr l ak))); [discriminate|].
      destruct (walk validate a k (k' :: keys) (read_arr l ak)) as [child'|] eqn:Hc;
        simpl in Hw; [|discriminate].
      apply IH in Hc. subst child'.
      destruct ak as [i|s]; [|now inversion Hw].
      cbn [read_arr] in Hw.
      destruct ((0 <=? i)%Z && (i <? Z.of_nat (length l))%Z) eqn:Hin;
        [|now inversion Hw].
      cbn [andb] in Hw.
      destruct (is_object (nth (Z.to_nat i) l JUndefined)); [|now inversion Hw].
      inversion Hw. now rewrite arr_set_get.
  - destruct keys as [|k' keys].
    + destruct Ha as [->|[v ->]]; simpl in Hw; case_ifs Hw; try discriminate;
        now inversion Hw.
    + destruct (validate && negb (is_object (opt_get (JObj o) _)));
        [discriminate|].
      destruct (walk validate a k (k' :: keys) (opt_get (JObj o) _))
        as [child'|] eqn:Hc; simpl in Hw; [|discriminate].
      apply IH in Hc. subst child'. cbn [opt_get] in Hw.
      destruct (own o (unescapePathComponent k)) as [x|] eqn:Hown;
        [|now inversion Hw].
      destruct (is_object x); [|now inversion Hw].
      inversion Hw. now rewrite (obj_set_own _ _ _ Hown).
  - destruct keys; [|destruct (walk _ _ _ _ _); simpl in Hw; try discriminate;
                     now inversion Hw].
    destruct Ha as [->|[v ->]]; simpl in Hw; case_ifs Hw; try discriminate;
      now inversion Hw.
Qed.

Lemma reads_only_not_rejected (o : Operation) :
  Server.reads_only o = true -> Server.rejects o = false.
Proof.
  unfold Server.reads_only, Server.rejects, Server.mutating. intro Hr.
  apply orb_true_iff in Hr as [Hr|Hr]; apply String.eqb_eq in Hr; now rewrite Hr.
Qed.

Lemma applyOperation_reads (doc : jsval) (o : Operation) :
  Server.reads_only o = true ->
  applyOperation Server.rejects doc o = Done doc \/
  exists e, applyOperation Server.rejects doc o = Thrown e doc.
Proof.
  intro Hr. unfold applyOperation.
  rewrite (reads_only_not_rejected _ Hr).
  unfold Server.reads_only in Hr.
  assert (Hact : action_of o = ActNone \/ exists v, action_of o = ActTest v).
  { unfold action_of.
    apply orb_true_iff in Hr as [Hr|Hr]; apply String.eqb_eq in Hr; rewrite Hr;
      simpl; eauto. }
  assert (Hnot : (op o =? "move") = false /\ (op o =? "copy") = false /\
                 (op o =? "add") = false /\ (op o =? "replace") = false /\
                 (op o =? "remove") = false).
  { apply orb_true_iff in Hr as [Hr|Hr]; apply String.eqb_eq in Hr; rewrite Hr;
      repeat split. }
  destruct Hnot as (Hm & Hc & Had & Hrp & Hrm).
  destruct (path o =? "").
  - rewrite Had, Hrp, Hm, Hc, Hrm. simpl.
    destruct (op o =? "test").
    + destruct (areEquals doc (value o)); eauto.
    + destruct (op o =? "_get"); eauto.
  - destruct (walk_pointer true (action_of o) (path o) doc) as [doc'|e] eqn:Hw;
      [|eauto].
    rewrite Hm, Hc. left. f_equal.
    unfold walk_pointer in Hw.
    destruct (split "/" (path o)) as [|first [|k ks]].
    + destruct doc; try discriminate; now apply (walk_reads _ _ Hact) in Hw.
    + destruct doc; try discriminate; now apply (walk_reads _ _ Hact) in Hw.
    + now apply (walk_reads _ _ Hact) in Hw.
Qed.

Lemma applyPatch_from_reads (patch : list Operation) :
  (forall o, In o patch -> Server.reads_only o = true) ->
  forall root c, fst (applyPatch_from Server.rejects root c patch) = root.
Proof.
  induction patch as [|o patch IH]; intros Hr root c; [reflexivity|].
  simpl.
  destruct (applyOperation_reads (current_doc root c) o (Hr o (or_introl eq_refl)))
    as [Ho|[e Ho]]; rewrite Ho.
  - rewrite store_current.
    apply IH. intros o' Ho'. apply Hr. now right.
  - simpl. apply store_current.
Qed.

(** X11.  A batch of [test] operations changes nothing: whatever the
    outcome (200 when every test holds, 400 when one fails, 404, 412),
    the store is left as it is, and Patch Authorization is not asked, so
    a test may name any member. *)
Theorem test_batch_changes_nothing (b : Server.Broker) (req : Server.Request) :
  (forall o, In o (Server.body req) -> Server.reads_only o = true) ->
  fst (Server.patchJob b req) = b /\
  existsb Server.rejects (Server.body req) = false.
Proof.
  intro Hr. split.
  - unfold Server.patchJob.
    destruct (Server.getTask b _) as [task|] eqn:Hg; [|reflexivity].
    destruct (Server.precondition_fails _ task); [reflexivity|].
    pose proof (applyPatch_from_reads (Server.body req) Hr task (Alias [])) as Hf.
    unfold applyPatch.
    destruct (applyPatch_from Server.rejects task (Alias []) (Server.body req))
      as [task' err].
    simpl in Hf. subst task'.
    destruct err; [|destruct (Server.getTaskBody task)]; simpl;
      now apply setTask_same.
  - induction (Server.body req) as [|o l IH]; [reflexivity|].
    simpl. rewrite (reads_only_not_rejected o (Hr o (or_introl eq_refl))).
    apply IH. intros o' Ho'. apply Hr. now right.
Qed.

(** X12.  Patch Authorization is asked about the first piece of the path
    only, as the path spells it: an operation on [/field] and one on any
    path below [/field] are allowed or rejected alike, by
    [canSet(field, value)] with a falsy value handed over as
    [undefined]; operations other than [add], [copy], [move], [remove]
    and [replace] are never rejected. *)
Theorem authorization_is_by_first_piece (o : Operation) (field rest : string) :
  contains_char "/" field = false ->
  path o = ("/" ++ field)%string \/ path o = ("/" ++ field ++ "/" ++ rest)%string ->
  Server.rejects o =
  existsb (String.eqb (op o)) Server.mutating &&
  negb (canSet (Some field)
          (if truthy (value o) then value o else JUndefined)).
Proof.
  intros Hf Hp. unfold Server.rejects.
  assert (Hprop : nth_error (split "/" (path o)) 1 = Some field).
  { destruct Hp as [-> | ->].
    - change ("/" ++ field)%string with (String "/" field).
      cbn [split Ascii.eqb Bool.eqb].
      now rewrite (split_without_separator _ _ Hf).
    - change ("/" ++ field ++ "/" ++ rest)%string
        with (String "/" (field ++ String "/" rest)).
      cbn [split Ascii.eqb Bool.eqb].
      now rewrite (split_at_separator _ _ _ Hf). }
  rewrite Hprop. now destruct (existsb _ Server.mutating).
Qed.

End PatchLaws.

(** ** What the poll query never offers *)

Section Offers.
Context {H : Host}.

Lemma poll_query_keys (w : Runner.t) (v : jsval) :
  Grammar.passes_by opt_get v (Runner.searchParams (Runner.fetchAvailableJobs w)) = true ->
  Server.loose_eq "undefined"
    (Grammar.resolve_by opt_get v ["current"; "runner"]) = true /\
  Server.loose_eq "undefined"
    (Grammar.resolve_by opt_get v ["last"; "status"]) = true /\
  Server.loose_eq "bisect" (Grammar.resolve_by opt_get v ["type"]) = true.
Proof.
  unfold Grammar.passes_by, Runner.fetchAvailableJobs, Runner.searchParams.
  cbn [forallb fst snd]. unfold Grammar.passes_over_by.
  change (Grammar.alternatives "undefined") with ["undefined"].
  change (Grammar.alternatives "bisect") with ["bisect"].
  change (Grammar.negated "current.runner") with false.
  change (Grammar.negated "last.status") with false.
  change (Grammar.negated "type") with false.
  change (Grammar.names_of "current.runner") with ["current"; "runner"].
  change (Grammar.names_of "last.status") with ["last"; "status"].
  change (Grammar.names_of "type") with ["type"].
  cbn [existsb]. rewrite !orb_false_r, andb_true_r.
  intro Hp. apply andb_true_iff in Hp as [_ Hp].
  apply andb_true_iff in Hp as [Hc Hp].
  apply andb_true_iff in Hp as [Hl Ht]. auto.
Qed.

(** X15.  Whatever the worker's platform and whatever else the store
    holds, the poll query never offers a job whose [current.runner] is a
    string other than [undefined], nor one whose [last.status] is a string
    other than [undefined], nor one whose [type] is a string other than
    [bisect]. *)
Theorem poll_query_never_offers (cands : list jsval) (w : Runner.t)
    (v : jsval) (s : string) :
  (fold_left opt_get ["current"; "runner"] v = JStr s /\ s <> "undefined") \/
  (fold_left opt_get ["last"; "status"] v = JStr s /\ s <> "undefined") \/
  (fold_left opt_get ["type"] v = JStr s /\ s <> "bisect") ->
  ~ In v (Server.filter cands
            (Runner.searchParams (Runner.fetchAvailableJobs w))).
Proof.
  intros Hv Hin. rewrite filter_passes in Hin. apply filter_In in Hin as [_ Hp].
  apply poll_query_keys in Hp as (Hc & Hl & Ht).
  unfold Grammar.resolve_by in *.
  destruct Hv as [[Hs Hne]|[[Hs Hne]|[Hs Hne]]].
  - rewrite Hs in Hc. cbn [Server.loose_eq] in Hc.
    apply String.eqb_eq in Hc. congruence.
  - rewrite Hs in Hl. cbn [Server.loose_eq] in Hl.
    apply String.eqb_eq in Hl. congruence.
  - rewrite Hs in Ht. cbn [Server.loose_eq] in Ht.
    apply String.eqb_eq in Ht. congruence.
Qed.

End Offers.

(** ** The runner's patches at the broker *)

Section Protocol.
Context {H : Host} {T : TaskClass} {L : TaskLog}.















End Protocol.


(** ** The Result on its way to the broker *)

Section Results.
Context {H : Host} {P : Parser}.

Lemma cloneJSON_defined :
  forall v, defined_everywhere v = true -> cloneJSON v = v.
Proof.
  fix IH 1. intros [| | b | n | s | l | o | f]; simpl;
    try reflexivity; try discriminate.
  - intro Hd. f_equal. induction l as [|x l IHl]; [reflexivity|].
    simpl in *. apply andb_true_iff in Hd as [Hx Hl].
    rewrite (IHl Hl). f_equal.
    pose proof (IH x Hx) as Hcx.
    destruct x; try discriminate; exact Hcx.
  - intro Hd. f_equal. induction o as [|[k x] o IHo]; [reflexivity|].
    simpl in *. apply andb_true_iff in Hd as [Hx Ho].
    rewrite (IHo Ho).
    pose proof (IH x Hx) as Hcx.
    destruct x; try discriminate; f_equal; f_equal; exact Hcx.
Qed.

Lemma wire_operation_defined (o : Operation) :
  value o = JUndefined \/ defined_everywhere (value o) = true ->
  wire_operation o = o.
Proof.
  destruct o as [name p f v]. unfold wire_operation. cbn [op path from value].
  intros [->|Hd]; [reflexivity|].
  pose proof (cloneJSON_defined v Hd) as Hc.
  destruct v; try reflexivity; now rewrite Hc.
Qed.

Lemma classified_result_defined (r : Runner.t) (begun now : Z)
    (e : Runner.ending) :
  Runner.timeBegun r = Some begun ->
  defined_everywhere (Runner.result_of r now (Runner.classified e)) = true.
Proof.
  intro Hb. unfold Runner.result_of. rewrite Hb.
  destruct e as [stdout exitCode|err]; simpl; [|reflexivity].
  unfold Runner.onClose.
  destruct (parseFiddleBisectOutput _); [reflexivity| |reflexivity].
  destruct exitCode as [code|]; [destruct (code =? 1)%Z|]; reflexivity.
Qed.

Lemma classified_members (r : Runner.t) (now : Z) (e : Runner.ending) :
  exists o,
    Runner.result_of r now (Runner.classified e) = JObj o /\
    map fst o =
    ["runner"; "status"; "time_begun"; "time_ended"] ++
    match own o "status" with
    | Some (JStr "success") => ["bisect_range"]
    | _ => ["error"]
    end.
Proof.
  unfold Runner.result_of. eexists. split; [reflexivity|].
  destruct e as [stdout exitCode|err]; simpl; [|reflexivity].
  unfold Runner.onClose.
  destruct (parseFiddleBisectOutput _); [reflexivity| |reflexivity].
  destruct exitCode as [code|]; [destruct (code =? 1)%Z|]; reflexivity.
Qed.

(** X16.  The members of a reported Result: at the end of the child of
    an invocation, by [close] or by [error], the invocation sends one
    request, whose operations add to [history] and put in [last] one
    object with the members [runner], [status], [time_begun],
    [time_ended] in this order, then [bisect_range] and no [error] when
    the status is [success], and [error] and no [bisect_range]
    otherwise. *)
Theorem result_members (l : Runner.loop) (p : nat) (e : Runner.ending)
    (now : Z) :
  Runner.waiting (Runner.polls l) p = Some Runner.ChildRunning ->
  exists req o,
    Runner.sent (Runner.step l (Runner.ended p e now)) =
    Runner.sent l ++ [Runner.Send p req] /\
    map (fun o => (op o, path o, value o)) (Runner.json req) =
    [("add", "/history/-", JObj o);
     ("replace", "/last", JObj o);
     ("remove", "/current", JUndefined)] /\
    map fst o =
    ["runner"; "status"; "time_begun"; "time_ended"] ++
    match own o "status" with
    | Some (JStr "success") => ["bisect_range"]
    | _ => ["error"]
    end.
Proof.
  intro Hw.
  destruct (classified_members (Runner.self l) now e) as (o & Ho & Hkeys).
  exists (Runner.patchResult (Runner.self l) now (Runner.classified e)), o.
  split; [now apply child_end_is_reported|].
  split; [|exact Hkeys].
  unfold Runner.patchResult, Runner.patchJob. cbn [Runner.json map op path value].
  now rewrite Ho.
Qed.

(** X17.  The report of a runner that holds a claim reaches the broker
    as the runner built it: serializing and parsing the JSON body changes
    none of the three operations.  Without a recorded claim time (the
    bookkeeping was deleted) the Result arrives without its [time_begun]
    member. *)
Theorem report_survives_the_wire (r : Runner.t) (now : Z) (e : Runner.ending) :
  match Runner.timeBegun r with
  | Some begun =>
      Server.body (deliver (Runner.patchResult r now (Runner.classified e)))
      = Runner.json (Runner.patchResult r now (Runner.classified e))
  | None =>
      forall o, In o (Server.body
                        (deliver (Runner.patchResult r now (Runner.classified e)))) ->
                op o <> "remove" ->
                opt_get (value o) "time_begun" = JUndefined /\
                opt_get (value o) "runner" = JStr (Runner.uuid r)
  end.
Proof.
  destruct (Runner.timeBegun r) as [begun|] eqn:Hb.
  - pose proof (classified_result_defined r begun now e Hb) as Hd.
    unfold deliver, Runner.patchResult, Runner.patchJob.
    cbn [Server.body Runner.json map].
    rewrite !wire_operation_defined; auto.
  - intros o Ho Hop.
    unfold deliver, Runner.patchResult, Runner.patchJob in Ho.
    cbn [Server.body Runner.json map] in Ho. unfold wire_operation in Ho.
    cbn [op path from value] in Ho. unfold Runner.result_of in Ho.
    rewrite Hb in Ho.
    destruct Ho as [<-|[<-|[<-|[]]]]; [| |now elim Hop].
    all: cbn [value]; rewrite (data_name_is_field "time_begun") by reflexivity;
      destruct e as [stdout exitCode|err]; simpl;
      [unfold Runner.onClose;
       destruct (parseFiddleBisectOutput _);
       [| destruct exitCode as [code|]; [destruct (code =? 1)%Z|] |]|];
      split; reflexivity.
Qed.

End Results.

(** ** The loop *)

Section LoopLaws.
Context {H : Host} {P : Parser}.

Lemma set_waiting_length (ps : list (nat * Runner.waits)) (p : nat)
    (w : Runner.waits) :
  length (Runner.set_waiting ps p w) = length ps.
Proof.
  induction ps as [|[q w'] ps IH]; simpl; [reflexivity|].
  destruct (q =? p)%nat; simpl; [reflexivity|now rewrite IH].
Qed.

Lemma finished_length (ps : list (nat * Runner.waits)) (p : nat) :
  length (Runner.finished ps p) <= length ps.
Proof. apply filter_length_le. Qed.

Lemma advances_refl (l : Runner.loop) : Runner.advances l l.
Proof. now constructor. Qed.

Lemma resume_advances (l : Runner.loop) (p : nat) (w : Runner.waits)
    (ev : Runner.event) :
  Runner.advances l (Runner.resume l p w ev).
Proof.
  assert (Hgo : forall r w' acts,
             Runner.interval r = Runner.interval (Runner.self l) ->
             Runner.advances l {| Runner.self := r;
                           Runner.polls := Runner.set_waiting (Runner.polls l) p w';
                           Runner.next_poll := Runner.next_poll l;
                           Runner.sent := Runner.sent l ++ acts |}).
  { intros r w' acts Hr. constructor; [exact Hr| |reflexivity].
    unfold Runner.in_flight. simpl. now rewrite set_waiting_length. }
  assert (Hend : forall r acts,
             Runner.interval r = Runner.interval (Runner.self l) ->
             Runner.advances l {| Runner.self := r;
                           Runner.polls := Runner.finished (Runner.polls l) p;
                           Runner.next_poll := Runner.next_poll l;
                           Runner.sent := Runner.sent l ++ acts |}).
  { intros r acts Hr. constructor; [exact Hr| |reflexivity].
    unfold Runner.in_flight. simpl. apply finished_length. }
  unfold Runner.resume, Runner.patchJob_done, Runner.claim.
  destruct w, ev; try apply advances_refl;
    repeat (cbv beta iota zeta; cbn [bind];
            match goal with
            | |- context [Runner.response_etag ?resp] =>
                destruct (Runner.response_etag resp)
            | |- Runner.advances _ (match ?x with _ => _ end) => destruct x
            | |- Runner.advances _ (if ?x then _ else _) => destruct x
            end);
    first [apply advances_refl | now apply Hend | now apply Hgo].
Qed.

Lemma step_advances (l : Runner.loop) (ev : Runner.event) :
  ev <> Runner.Timer \/ Runner.interval (Runner.self l) = false ->
  Runner.advances l (Runner.step l ev).
Proof.
  intro Hev. unfold Runner.step.
  destruct ev as [|p resp now|p stdout exitCode now|p err now].
  - destruct Hev as [Hev|Hoff]; [now elim Hev|].
    rewrite Hoff. apply advances_refl.
  - destruct (Runner.waiting _ p); [apply resume_advances|apply advances_refl].
  - destruct (Runner.waiting _ p); [apply resume_advances|apply advances_refl].
  - destruct (Runner.waiting _ p); [apply resume_advances|apply advances_refl].
Qed.

Lemma run_without_timer (evs : list Runner.event) :
  forall l, Runner.interval (Runner.self l) = false ->
            Runner.in_flight (Runner.run l evs) <= Runner.in_flight l.
Proof.
  unfold Runner.run.
  induction evs as [|ev evs IH]; intros l Hoff; [apply Nat.le_refl|].
  simpl. destruct (step_advances l ev (or_intror Hoff)) as [Ht Hc _].
  etransitivity; [apply IH; congruence|exact Hc].
Qed.

(** X18.  Only the timer starts an invocation of [poll]: an answer of
    the broker or an event of a child never raises the number of
    invocations in flight, and the timer raises it by one; after
    [stop], whatever events follow, no invocation starts, while those in
    flight go on. *)
Theorem only_the_timer_starts_a_poll (l : Runner.loop) :
  (forall ev, ev <> Runner.Timer ->
              Runner.in_flight (Runner.step l ev) <= Runner.in_flight l) /\
  Runner.in_flight (Runner.step l Runner.Timer) <= S (Runner.in_flight l) /\
  (forall evs,
      Runner.in_flight (Runner.run (Runner.stop l) evs) <= Runner.in_flight l) /\
  Runner.polls (Runner.stop l) = Runner.polls l.
Proof.
  split; [|split; [|split]].
  - intros ev Hev. now destruct (step_advances l ev (or_introl Hev)).
  - simpl. destruct (Runner.interval (Runner.self l)); [|lia].
    unfold Runner.in_flight, Runner.pollSafely. simpl.
    rewrite length_app. simpl. lia.
  - intro evs. apply (run_without_timer evs (Runner.stop l)). reflexivity.
  - reflexivity.
Qed.

(** X19.  The tool is started for a claimed job only: a step of the loop
    spawns a child only when it is the answer, with a success status and
    an etag, to the claim patch of an invocation, for a job of type
    [bisect]; the arguments are [bisect], the two ends of the job's
    range, [--fiddle] and the job's gist. *)
Theorem child_is_spawned_after_the_claim (l : Runner.loop) (ev : Runner.event)
    (p : nat) (args : list string) :
  In (Runner.Spawn p args) (Runner.sent (Runner.step l ev)) ->
  In (Runner.Spawn p args) (Runner.sent l) \/
  exists job resp now etag,
    ev = Runner.Response p resp now /\
    Runner.waiting (Runner.polls l) p = Some (Runner.AwaitClaim job) /\
    Runner.response_etag resp = Ok etag /\
    opt_get job "type" = JStr "bisect" /\
    args = ["bisect";
            Runner.js_string (opt_get (opt_get job "bisect_range") "0");
            Runner.js_string (opt_get (opt_get job "bisect_range") "1");
            "--fiddle";
            Runner.js_string (opt_get job "gist")].
Proof.
  unfold Runner.step.
  destruct ev as [|q resp now|q stdout exitCode now|q err now].
  - destruct (Runner.interval (Runner.self l)); [|auto].
    unfold Runner.pollSafely. simpl. intro Hin.
    apply in_app_or in Hin as [Hin|[Hin|[]]]; [auto|discriminate].
  - destruct (Runner.waiting (Runner.polls l) q) as [w|] eqn:Hw; [|auto].
    unfold Runner.resume, Runner.patchJob_done, Runner.claim.
    destruct w as [| |job| |]; cbv beta iota zeta.
    + repeat (match goal with
              | |- context [match ?x with _ => _ end] => destruct x
              | |- context [if ?x then _ else _] => destruct x
              end); simpl; intro Hin; try rewrite app_nil_r in Hin; auto;
        apply in_app_or in Hin as [Hin|[Hin|[]]]; auto; discriminate.
    + destruct (Runner.response_etag resp);
        [destruct (Runner.res_body resp)|]; simpl; intro Hin;
        try rewrite app_nil_r in Hin; auto;
        apply in_app_or in Hin as [Hin|[Hin|[]]]; auto; discriminate.
    + destruct (Runner.response_etag resp) as [etag|] eqn:He; cbn [bind];
        [|simpl; intro Hin; rewrite app_nil_r in Hin; auto].
      destruct (opt_get job "type") as [| | | |ty| | |] eqn:Hty;
        try (simpl; intro Hin; rewrite app_nil_r in Hin; now auto).
      destruct (String.eqb_spec ty "bisect") as [->|Hne].
      * destruct (opt_get job "bisect_range") eqn:Hrange;
          try (simpl; intro Hin; rewrite app_nil_r in Hin; now auto);
          simpl; intro Hin; apply in_app_or in Hin as [Hin|[Hin|[]]]; auto;
          inversion Hin; subst; right; exists job, resp, now, etag;
          rewrite Hrange; repeat split; auto.
      * assert (Hno : forall A (x y : A),
                   match ty with
                   | "bisect" => x
                   | _ => y
                   end = y).
        { intros A x y.
          repeat (match goal with
                  | |- context [match ?s with EmptyString => _ | String _ _ => _ end] =>
                      destruct s
                  | |- context [match ?c with Ascii _ _ _ _ _ _ _ _ => _ end] =>
                      destruct c
                  | |- context [if ?b then _ else _] => destruct b
                  end; try reflexivity); now elim Hne. }
        rewrite Hno. simpl. intro Hin. rewrite app_nil_r in Hin. auto.
    + destruct (Runner.response_etag resp); simpl; intro Hin;
        try rewrite app_nil_r in Hin; auto.
    + destruct (Runner.response_etag resp); simpl; intro Hin;
        try rewrite app_nil_r in Hin; auto.
  - destruct (Runner.waiting (Runner.polls l) q) as [w|]; [|auto].
    unfold Runner.resume. destruct w; auto.
    simpl. intro Hin. apply in_app_or in Hin as [Hin|[Hin|[]]]; auto; discriminate.
  - destruct (Runner.waiting (Runner.polls l) q) as [w|]; [|auto].
    unfold Runner.resume. destruct w; auto.
    simpl. intro Hin. apply in_app_or in Hin as [Hin|[Hin|[]]]; auto; discriminate.
Qed.

End LoopLaws.

(** ** After the report, and reading again *)

Section Listing.
Context {H : Host} {T : TaskClass} {L : TaskLog} {P : Parser}.



Lemma obj_set_twice (o : props) (k : string) (v : jsval) :
  obj_set (obj_set o k v) k v = obj_set o k v.
Proof.
  induction o as [|[k' v'] o IH]; simpl.
  - now rewrite String.eqb_refl.
  - destruct (k' =? k) eqn:E; simpl; rewrite E; [reflexivity|now rewrite IH].
Qed.

Lemma setTask_twice (b : Server.Broker) (id : string) (t t' : jsval) :
  Server.setTask (Server.setTask b id t) id t' = Server.setTask b id t'.
Proof.
  induction b as [|[k x] b IH]; simpl; [reflexivity|].
  destruct (k =? id) eqn:E; simpl; rewrite E; [reflexivity|now rewrite IH].
Qed.

(** X22.  Reading is idempotent: when the public subset does not depend
    on the stored [etag] member, a second GET of a job answers as the
    first did, body and [ETag] alike, and leaves the store as the first
    left it. *)
Theorem reading_twice_is_reading_once (b : Server.Broker)
    (req : Server.Request) (o : props) :
  (forall t v, publicSubset (Server.set_field t "etag" v) = publicSubset t) ->
  Server.getTask b (Server.basename (Server.url req)) = Some (JObj o) ->
  Server.getJob (fst (Server.getJob b req)) req = Server.getJob b req.
Proof.
  intros Hpub Hg. unfold Server.getJob at 2 3. rewrite Hg.
  unfold Server.getTaskBody. cbn [fst].
  unfold Server.getJob.
  rewrite getTask_setTask, String.eqb_refl, Hg.
  unfold Server.getTaskBody. rewrite !Hpub.
  rewrite setTask_twice. cbn [Server.set_field].
  now rewrite obj_set_twice.
Qed.

End Listing.

Lemma obj_delete_obj_set (o : props) (k : string) (v : jsval) :
  obj_delete (obj_set o k v) k = obj_delete o k.
Proof.
  induction o as [|[k' v'] o IH]; simpl.
  - now rewrite String.eqb_refl.
  - destruct (k' =? k) eqn:E; simpl; rewrite E; [reflexivity|now rewrite IH].
Qed.

Lemma visible_ignores_etag (t v : jsval) :
  Sample.visible (Server.set_field t "etag" v) = Sample.visible t.
Proof.
  destruct t; try reflexivity. simpl. now rewrite obj_delete_obj_set.
Qed.

(** The job [j1] read twice. *)
Lemma reading_twice_is_reading_once_witness :
  getJob1 (fst (getJob1 broker1 (get_request "j1"))) (get_request "j1")
  = getJob1 broker1 (get_request "j1").
Proof.
  apply (reading_twice_is_reading_once (H := Sample.host)
           (T := Sample.task_class) broker1 (get_request "j1") members1).
  - exact visible_ignores_etag.
  - reflexivity.
Defined.




(** ** The properties above at the sample store *)

(** The url of job [j1]. *)
Lemma job_url_round_trip_witness :
  Server.basename
    (Server.url (deliver (H := Sample.host)
                   (Runner.fetchJobAndEtag holder "j1"))) = "j1" /\
  Server.route_of "PATCH"
    (Server.url (deliver (H := Sample.host) (Runner.patchJob holder [])))
  = Server.PatchJob /\
  Server.basename
    (Server.url (deliver (H := Sample.host) (Runner.patchJob holder []))) = "j1".
Proof.
  destruct (job_url_round_trip (H := Sample.host) holder "j1")
    as [[_ Hget] Hpatch];
    [discriminate|reflexivity|reflexivity|reflexivity|reflexivity|].
  split; [exact Hget|]. apply Hpatch. reflexivity.
Defined.


(** A patch of [j1] leaves [j2]. *)
Lemma handlers_touch_one_job_witness :
  Server.getTask
    (fst (patchJob1 broker2 (patch_request "j1" None [set_note "a"]))) "j2"
  = Some task2 /\
  Server.getTask
    (fst (Server.putLog (L := Sample.task_log) broker2
            (log_request "/api/jobs/j1/log" "started"))) "j2"
  = Some task2.
Proof.
  destruct (handlers_touch_one_job (H := Sample.host) (T := Sample.task_class)
              (L := Sample.task_log) broker2
              (patch_request "j1" None [set_note "a"])
              (log_request "/api/jobs/j1/log" "started") "j2")
    as (_ & Hjob & Hlog).
  split.
  - apply Hjob. discriminate.
  - apply Hlog. discriminate.
Defined.

(** A job the store does not hold. *)
Lemma unknown_job_is_not_found_witness :
  patchJob1 broker1 (patch_request "j9" None [set_note "a"])
  = (broker1, Server.unknown_job "j9") /\
  Server.putLog (L := Sample.task_log) broker1
    (log_request "/api/jobs/j9/log" "started")
  = (broker1, Server.unknown_job "j9").
Proof.
  destruct (unknown_job_is_not_found (H := Sample.host)
              (T := Sample.task_class) (L := Sample.task_log) broker1
              (patch_request "j9" None [set_note "a"])
              (log_request "/api/jobs/j9/log" "started") "j9" eq_refl)
    as (Hjob & Hlog & _).
  split.
  - apply (Hjob eq_refl).
  - apply (Hlog eq_refl).
Defined.

(** A precondition on a job that was never read. *)
Lemma precondition_failed_exactly_when_witness :
  Server.status
    (snd (patchJob1 broker1 (patch_request "j1" (Some "tag") [set_note "a"])))
  = 412%Z.
Proof.
  apply (precondition_failed_exactly_when (H := Sample.host)
           (T := Sample.task_class) broker1
           (patch_request "j1" (Some "tag") [set_note "a"])).
  exists task1, "tag". repeat split; discriminate.
Defined.

(** A read of [j1], a patch, then a patch conditioned on the etag of the
    read. *)
Lemma etag_of_read_passes_precondition_witness :
  Server.status
    (snd (patchJob1
            (Server.patched (H := Sample.host) (T := Sample.task_class)
               (fst (getJob1 broker1 (get_request "j1")))
               [patch_request "j1" None [set_note "a"]])
            (patch_request "j1" (Some etag1) [set_note "b"]))) <> 412%Z.
Proof.
  apply (etag_of_read_passes_precondition (H := Sample.host)
           (T := Sample.task_class) broker1 (get_request "j1") members1
           [patch_request "j1" None [set_note "a"]]
           (patch_request "j1" (Some etag1) [set_note "b"])).
  - reflexivity.
  - intros r [<-|[]] o [<-|[]]. split; reflexivity.
  - reflexivity.
  - reflexivity.
Defined.

(** A test of a member that may not be set. *)
Lemma test_batch_changes_nothing_witness :
  fst (patchJob1 broker1 (patch_request "j1" None [test_type])) = broker1.
Proof.
  apply (test_batch_changes_nothing (H := Sample.host) (T := Sample.task_class)
           broker1 (patch_request "j1" None [test_type])).
  intros o [<-|[]]. reflexivity.
Defined.

(** A member below [bot_client_data]. *)
Lemma authorization_is_by_first_piece_witness :
  Server.rejects (T := Sample.task_class)
    {| op := "add"; path := "/bot_client_data/note"; from := "";
       value := JStr "a" |} = false.
Proof.
  rewrite (authorization_is_by_first_piece (T := Sample.task_class)
             {| op := "add"; path := "/bot_client_data/note"; from := "";
                value := JStr "a" |} "bot_client_data" "note" eq_refl
             (or_intror eq_refl)).
  reflexivity.
Defined.



(** A job held by a runner. *)
Lemma poll_query_never_offers_witness :
  ~ In (Interfaces.job_json (a_job "claimed" None (Some (a_claim "runner-B")) None))
       (Server.filter (H := Sample.host)
          (map Interfaces.job_json listed_jobs)
          (Runner.searchParams (Runner.fetchAvailableJobs (worker "runner-A")))).
Proof.
  apply (poll_query_never_offers (H := Sample.host) _ _ _ "runner-B").
  left. split; [reflexivity|discriminate].
Defined.

(** A report after the bookkeeping was deleted. *)
Lemma report_survives_the_wire_witness :
  opt_get (H := Sample.host)
    (value {| op := "replace"; path := "/last"; from := "";
              value := cloneJSON (Runner.result_of (worker "runner-A") 2000
                                    (Runner.onError "ENOENT")) |})
    "time_begun" = JUndefined.
Proof.
  pose proof (report_survives_the_wire (H := Sample.host) (P := Sample.parser)
                (worker "runner-A") 2000 (Runner.Errored "ENOENT")) as Hwire.
  simpl in Hwire.
  apply (Hwire {| op := "replace"; path := "/last"; from := "";
                  value := cloneJSON (Runner.result_of (worker "runner-A") 2000
                                        (Runner.onError "ENOENT")) |}).
  - right. left. reflexivity.
  - discriminate.
Defined.

(** The close of the first child, with a second invocation in flight. *)
Lemma only_the_timer_starts_a_poll_witness :
  Runner.in_flight
    (step1 (snd overlap)
       (Runner.ChildClose 0 ["10.1.0 10.2.0"] (Some 0%Z) 30000)) <= 2.
Proof.
  destruct (only_the_timer_starts_a_poll (H := Sample.host)
              (P := Sample.parser) (snd overlap)) as [Hstep _].
  apply (Hstep (Runner.ChildClose 0 ["10.1.0 10.2.0"] (Some 0%Z) 30000)).
  discriminate.
Defined.

(** The child of the first claim: the step that answers the claim. *)
Lemma child_is_spawned_after_the_claim_witness :
  In (Runner.Spawn 0 ["bisect"; "10.0.0"; "11.2.0"; "--fiddle";
                      "8c5fc0c6a5153d49b5a4a56d3ed9da8f"])
     (Runner.sent (snd awaiting_claim)) \/
  exists job resp now etag,
    Runner.Response 0 claim_answer 1001 = Runner.Response 0 resp now /\
    Runner.waiting (Runner.polls (snd awaiting_claim)) 0
    = Some (Runner.AwaitClaim job) /\
    Runner.response_etag resp = Ok etag /\
    opt_get (H := Sample.host) job "type" = JStr "bisect" /\
    ["bisect"; "10.0.0"; "11.2.0"; "--fiddle";
     "8c5fc0c6a5153d49b5a4a56d3ed9da8f"] =
    ["bisect";
     Runner.js_string (H := Sample.host)
       (opt_get (H := Sample.host)
          (opt_get (H := Sample.host) job "bisect_range") "0");
     Runner.js_string (H := Sample.host)
       (opt_get (H := Sample.host)
          (opt_get (H := Sample.host) job "bisect_range") "1");
     "--fiddle";
     Runner.js_string (H := Sample.host) (opt_get (H := Sample.host) job "gist")].
Proof.
  apply (child_is_spawned_after_the_claim (H := Sample.host)
           (P := Sample.parser)
           (snd awaiting_claim) (Runner.Response 0 claim_answer 1001)).
  vm_compute. do 3 right. left. reflexivity.
Defined.

(** The members of the report at the exit of the child of [j1]. *)
Lemma result_members_witness :
  exists req o,
    Runner.sent (step1 (snd first_claim)
                   (Runner.ChildClose 0 ["10.1.0 10.2.0"] (Some 0%Z) 30000)) =
    Runner.sent (snd first_claim) ++ [Runner.Send 0 req] /\
    map (fun o => (op o, path o, value o)) (Runner.json req) =
    [("add", "/history/-", JObj o);
     ("replace", "/last", JObj o);
     ("remove", "/current", JUndefined)] /\
    map fst o =
    ["runner"; "status"; "time_begun"; "time_ended"] ++
    match own o "status" with
    | Some (JStr "success") => ["bisect_range"]
    | _ => ["error"]
    end.
Proof.
  exact (result_members (H := Sample.host) (P := Sample.parser)
           (snd first_claim) 0
           (Runner.Closed ["10.1.0 10.2.0"] (Some 0%Z)) 30000 eq_refl).
Defined.
